(** * ArtistryBay: the post controller

    A shallow embedding of [server/controllers/post_controller.js]: the nine
    request handlers of the post/comment API, run against an explicit model of
    the three document collections (posts, comments, users) they read and
    write through the object-document mapper.

    Conventions of the embedding.
    - An ObjectId is an abstract identifier ([positive]). Where the
      controller hands a request id ([req.id], [req.params.id]) to the
      mapper, which casts it, the id is the ObjectId it is cast to. Where
      the controller compares the text of [req.params.id] itself (the filter
      of [deletePost]), the parameter is kept as the text it is ([IdText]).
      [req.id] is the id the authentication layer issued, in the text
      [toString] prints, so [post.author.toString() !== authorId] is
      disequality of ids.
    - A collection is a finite map from [_id] to the document's fields.
    - [await] is sequencing: one request runs at a time.
    - A handler is a function [World -> Response * World]; an exception thrown
      inside [try] keeps the writes made before it, as the database does.
    - The database itself does not fail; the exceptions modelled are the ones
      the controller can raise on its own: a property read on [null], a
      rejected transcode or upload, and a schema validation error. *)

From stdpp Require Import gmap strings list sorting.

Local Open Scope string_scope.
Local Open Scope list_scope.

Abbreviation ObjectId := positive.
Abbreviation Buffer := string.

(** The text of a request parameter that names a document. A well-formed
    text spells one ObjectId, the one the mapper casts it to. It spells it
    either as [toString] prints ids (lower-case hex digits) or in another
    way (upper-case or mixed-case digits); the cast does not tell the two
    apart, a comparison of strings does. Texts that spell no id are outside
    the model. *)
Inductive Spelling := Canonical | Variant.

Record IdText := mkIdText { cast : ObjectId; spelling : Spelling }.

#[global] Instance Spelling_eq_dec : EqDecision Spelling.
Proof. solve_decision. Defined.

#[global] Instance IdText_eq_dec : EqDecision IdText.
Proof. solve_decision. Defined.

(** [id.toString()] *)
Definition toString (id : ObjectId) : IdText := mkIdText id Canonical.

(** ** Documents *)

Module User.
(** The fields of a user document that the controller reads or selects. *)
Record t := mk {
  username : string;
  profilePicture : string;
  password : string;
  posts : list ObjectId;
  bookmarks : list ObjectId
}.
End User.

Module Post.
Record t := mk {
  caption : option string;
  image : string;
  author : ObjectId;
  comments : list ObjectId;
  likes : list ObjectId;
  createdAt : N
}.
End Post.

Module Comment.
Record t := mk {
  text : string;
  author : ObjectId;
  post : ObjectId;
  createdAt : N
}.
End Comment.

(** A document loaded in memory: its [_id] and the fields read from the
    collection. *)
Record Doc (T : Type) := mkDoc { _id : ObjectId; fields : T }.
Arguments mkDoc {T} _ _.
Arguments _id {T} _.
Arguments fields {T} _.

(** ** The world a handler runs in *)

(** Calls that leave the process: the image pipeline and the storage upload. *)
Inductive ExtCall :=
  | SharpToBuffer (input : Buffer)
  | CloudinaryUpload (fileUri : string).

Record World := mkWorld {
  posts : gmap positive Post.t;
  comments : gmap positive Comment.t;
  users : gmap positive User.t;
  next_id : positive;          (* the ObjectId generator *)
  now : N;                     (* the clock read by the timestamps *)
  calls : list ExtCall         (* external calls made so far, oldest first *)
}.

Definition set_posts (f : gmap positive Post.t → gmap positive Post.t) (w : World) : World :=
  mkWorld (f (posts w)) (comments w) (users w) (next_id w) (now w) (calls w).
Definition set_comments (f : gmap positive Comment.t → gmap positive Comment.t) (w : World) : World :=
  mkWorld (posts w) (f (comments w)) (users w) (next_id w) (now w) (calls w).
Definition set_users (f : gmap positive User.t → gmap positive User.t) (w : World) : World :=
  mkWorld (posts w) (comments w) (f (users w)) (next_id w) (now w) (calls w).
Definition log_call (c : ExtCall) (w : World) : World :=
  mkWorld (posts w) (comments w) (users w) (next_id w) (now w) (calls w ++ [c]).
Definition bump_id (w : World) : World :=
  mkWorld (posts w) (comments w) (users w) (Pos.succ (next_id w)) (now w) (calls w).

(** ** Computations that may throw *)

Inductive Outcome (A : Type) :=
  | Ok (a : A)
  | Throw (message : string).
Arguments Ok {A} _.
Arguments Throw {A} _.

Definition M (A : Type) : Type := World → Outcome A * World.

#[global] Instance M_ret : MRet M := λ A a w, (Ok a, w).
#[global] Instance M_bind : MBind M := λ A B k m w,
  match m w with
  | (Ok a, w') => k a w'
  | (Throw e, w') => (Throw e, w')
  end.

Definition throw {A} (message : string) : M A := λ w, (Throw message, w).
Definition get {A} (f : World → A) : M A := λ w, (Ok (f w), w).
Definition modify (f : World → World) : M unit := λ w, (Ok (), f w).
Definition lift {A} (o : Outcome A) : M A := λ w, (o, w).

(** ** Responses *)

(** What [select] leaves of a populated user. *)
Record UserView := mkUserView {
  uv_id : ObjectId;
  uv_username : string;
  uv_profilePicture : string;
  uv_posts : option (list ObjectId);
  uv_bookmarks : option (list ObjectId)
}.

Record CommentView := mkCommentView {
  cv_id : ObjectId;
  cv_text : string;
  cv_author : option UserView;       (* [None] is JSON null: no such user *)
  cv_post : ObjectId;
  cv_createdAt : N
}.

Record PostView := mkPostView {
  pv_id : ObjectId;
  pv_caption : option string;
  pv_image : string;
  pv_author : option UserView;
  pv_comments : list ObjectId + list CommentView;   (* ids, or populated *)
  pv_likes : list ObjectId;
  pv_createdAt : N
}.

Inductive Json :=
  | JBool (b : bool)
  | JString (s : string)
  | JPost (p : PostView)
  | JPosts (ps : list PostView)
  | JComment (c : CommentView)
  | JComments (cs : list CommentView).

(** [res.status(code).json(obj)]: the keys of [obj] in source order. *)
Record Response := mkResponse { status : N; body : list (string * Json) }.

Definition json (code : N) (obj : list (string * Json)) : Response := mkResponse code obj.

Fixpoint field (key : string) (obj : list (string * Json)) : option Json :=
  match obj with
  | [] => None
  | (k, v) :: rest => if String.eqb k key then Some v else field key rest
  end.

(** The envelope check: the body has a [success] key holding a boolean. *)
Definition has_success (r : Response) : bool :=
  match field "success" (body r) with
  | Some (JBool _) => true
  | _ => false
  end.

Definition Handler : Type := World → Response * World.

(** [try { body } catch (error) { return handler(error.message) }] *)
Definition try_catch (body : M Response) (handler : string → Response) : Handler :=
  λ w, match body w with
       | (Ok r, w') => (r, w')
       | (Throw e, w') => (handler e, w')
       end.

(** The [catch] block every handler ends with. *)
Definition failed (message : string) (error : string) : Response :=
  json 500 [("message", JString message); ("error", JString error); ("success", JBool false)].

(** ** The object-document mapper *)

(** Reading a property of a value that may be [null]. *)
Definition prop {A} (name : string) (o : option A) : M A :=
  match o with
  | Some a => mret a
  | None => throw ("Cannot read properties of null (reading '" +:+ name +:+ "')")
  end.

(** [Model.findById(id)]: the document, or [null]. *)
Definition Post_findById (id : ObjectId) : M (option (Doc Post.t)) :=
  get (λ w, mkDoc id <$> posts w !! id).
Definition User_findById (id : ObjectId) : M (option (Doc User.t)) :=
  get (λ w, mkDoc id <$> users w !! id).

(** Modelled from the spec: the post schema is not part of the controller.
    A new post has empty comments and likes, its image reference is required
    and non-empty, and it is stamped with its creation time. *)
Definition Post_create (caption : option string) (image : string) (author : ObjectId)
  : M (Doc Post.t) :=
  if decide (image = "") then
    throw "Post validation failed: image: Path `image` is required."
  else λ w,
    let p := Post.mk caption image author [] [] (now w) in
    (Ok (mkDoc (next_id w) p), bump_id (set_posts (insert (next_id w) p) w)).

(** Modelled from the spec: the comment schema is not part of the controller.
    A comment holds its text, author and post reference and is stamped with
    its creation time; the post reference is stored as given, whether or not
    a post has that id. *)
Definition Comment_create (text : string) (author post : ObjectId) : M (Doc Comment.t) :=
  λ w,
    let c := Comment.mk text author post (now w) in
    (Ok (mkDoc (next_id w) c), bump_id (set_comments (insert (next_id w) c) w)).

(** The update operators the controller sends. *)
Definition addToSet (x : ObjectId) (l : list ObjectId) : list ObjectId :=
  if decide (x ∈ l) then l else l ++ [x].
Definition pull (x : ObjectId) (l : list ObjectId) : list ObjectId :=
  filter (λ y, y ≠ x) l.

Definition with_likes (f : list ObjectId → list ObjectId) (p : Post.t) : Post.t :=
  Post.mk (Post.caption p) (Post.image p) (Post.author p) (Post.comments p)
          (f (Post.likes p)) (Post.createdAt p).
Definition with_comments (f : list ObjectId → list ObjectId) (p : Post.t) : Post.t :=
  Post.mk (Post.caption p) (Post.image p) (Post.author p) (f (Post.comments p))
          (Post.likes p) (Post.createdAt p).
Definition with_posts (f : list ObjectId → list ObjectId) (u : User.t) : User.t :=
  User.mk (User.username u) (User.profilePicture u) (User.password u)
          (f (User.posts u)) (User.bookmarks u).
Definition with_bookmarks (f : list ObjectId → list ObjectId) (u : User.t) : User.t :=
  User.mk (User.username u) (User.profilePicture u) (User.password u)
          (User.posts u) (f (User.bookmarks u)).

(** [doc.updateOne(update)]: applied to the stored document with that [_id]. *)
Definition Post_updateOne (d : Doc Post.t) (update : Post.t → Post.t) : M unit :=
  modify (set_posts (alter update (_id d))).
Definition User_updateOne (d : Doc User.t) (update : User.t → User.t) : M unit :=
  modify (set_users (alter update (_id d))).

(** Changes made to a loaded document and not yet saved. *)
Inductive PostChange := PushComments (c : ObjectId).
Inductive UserChange := PushPosts (p : ObjectId) | SetPosts (ps : list ObjectId).

Definition apply_post_change (c : PostChange) : Post.t → Post.t :=
  match c with PushComments x => with_comments (λ l, l ++ [x]) end.
Definition apply_user_change (c : UserChange) : User.t → User.t :=
  match c with
  | PushPosts x => with_posts (λ l, l ++ [x])
  | SetPosts ps => with_posts (λ _, ps)
  end.

(** [doc.save()] writes the paths modified in memory and nothing else: with
    no pending change it leaves the stored document as it is. *)
Definition Post_save (d : Doc Post.t) (changes : list PostChange) : M unit :=
  modify (set_posts (alter (λ p, foldl (λ p c, apply_post_change c p) p changes) (_id d))).
Definition User_save (d : Doc User.t) (changes : list UserChange) : M unit :=
  modify (set_users (alter (λ u, foldl (λ u c, apply_user_change c u) u changes) (_id d))).

Definition Post_findByIdAndDelete (id : ObjectId) : M unit :=
  modify (set_posts (delete id)).
(** [Comment.deleteMany({ post: postId })] *)
Definition Comment_deleteMany (postId : ObjectId) : M unit :=
  modify (set_comments (filter (λ kc, Comment.post kc.2 ≠ postId))).

(** *** Queries and population *)

Inductive SortOrder := Ascending | Descending.   (* [{ createdAt: 1 }], [{ createdAt: -1 }] *)

Definition by_createdAt {A} (key : A → N) (o : SortOrder) : relation A :=
  match o with
  | Ascending => λ a b, (key a ≤ key b)%N
  | Descending => λ a b, (key b ≤ key a)%N
  end.

#[global] Instance by_createdAt_dec {A} (key : A → N) o a b
  : Decision (by_createdAt key o a b) :=
  match o with
  | Ascending => N.le_dec (key a) (key b)
  | Descending => N.le_dec (key b) (key a)
  end.

Definition sort_by {A} (key : A → N) (o : option SortOrder) (l : list A) : list A :=
  match o with
  | Some o => merge_sort (by_createdAt key o) l
  | None => l
  end.

Definition docs {T} (m : gmap positive T) : list (Doc T) :=
  (λ kv, mkDoc kv.1 kv.2) <$> map_to_list m.

(** [Post.find(filter).sort(order)] *)
Definition Post_find (P : Post.t → Prop) `{∀ p, Decision (P p)} (order : option SortOrder)
  : M (list (Doc Post.t)) :=
  get (λ w, sort_by (λ d, Post.createdAt (fields d)) order
              (filter (λ d, P (fields d)) (docs (posts w)))).
(** [Comment.find({ post: postId })] *)
Definition Comment_find (postId : ObjectId) : M (list (Doc Comment.t)) :=
  get (λ w, filter (λ d, Comment.post (fields d) = postId) (docs (comments w))).

Inductive Select :=
  | UsernameProfilePicture     (* ['username profilePicture'] *)
  | AllButPassword.            (* ['-password'] *)

Definition select_user (s : Select) (d : Doc User.t) : UserView :=
  let u := fields d in
  match s with
  | UsernameProfilePicture =>
      mkUserView (_id d) (User.username u) (User.profilePicture u) None None
  | AllButPassword =>
      mkUserView (_id d) (User.username u) (User.profilePicture u)
                 (Some (User.posts u)) (Some (User.bookmarks u))
  end.

(** Populating a single reference: the selected fields of the referenced user,
    or [null] when no user has that id. *)
Definition populate_user (w : World) (s : Select) (id : ObjectId) : option UserView :=
  select_user s <$> (mkDoc id <$> users w !! id).

Definition comment_view (w : World) (s : Select) (d : Doc Comment.t) : CommentView :=
  let c := fields d in
  mkCommentView (_id d) (Comment.text c) (populate_user w s (Comment.author c))
                (Comment.post c) (Comment.createdAt c).

(** The keys of the object handed to [populate] for the [comments] path.
    The mapper takes the options of the population query (sort, limit, lean)
    from the [options] key; the keys it reads beside [path] are [select],
    [match], [model], [options], [populate] and the like, and [sort] is not
    one of them. Both places are kept apart here so that each handler passes
    exactly the keys it passes in the source. *)
Record PopulateComments := mkPopulateComments {
  pc_sort : option SortOrder;            (* a [sort] key next to [path] *)
  pc_options_sort : option SortOrder;    (* [options: { sort }] *)
  pc_populate_author : Select            (* [populate: { path: 'author', select }] *)
}.

(** Populating an array of references: the referenced documents that exist,
    in the order of the stored id array, unless the population query was
    given a sort through its options. *)
Definition populate_comments (w : World) (o : PopulateComments) (ids : list ObjectId)
  : list CommentView :=
  let found := omap (λ id, mkDoc id <$> comments w !! id) ids in
  sort_by cv_createdAt (pc_options_sort o) (comment_view w (pc_populate_author o) <$> found).

(** A post as it is serialised: its author populated, its comments populated
    when a population of [comments] was asked for and left as ids otherwise. *)
Definition post_view (w : World) (author : Select) (c : option PopulateComments)
  (d : Doc Post.t) : PostView :=
  let p := fields d in
  mkPostView (_id d) (Post.caption p) (Post.image p) (populate_user w author (Post.author p))
             (match c with
              | Some o => inr (populate_comments w o (Post.comments p))
              | None => inl (Post.comments p)
              end)
             (Post.likes p) (Post.createdAt p).

(** ** The controller *)

(** The uploaded file of a request ([req.file]). *)
Record File := mkFile { buffer : Buffer }.

(** JavaScript truthiness of an optional string: [undefined] and the empty
    string are falsy. *)
Definition truthy (s : option string) : option string :=
  match s with
  | Some s => if decide (s = "") then None else Some s
  | None => None
  end.

Section Controller.

(** The external collaborators: the image pipeline
    [sharp(buf).resize(..).toFormat('jpeg', ..).toBuffer()], the base64
    encoding of a buffer, and [cloudinary.uploader.upload], which yields the
    [secure_url] of the stored image. The first and the last may reject. *)
Variable sharp : Buffer → Outcome Buffer.
Variable base64 : Buffer → string.
Variable upload : string → Outcome string.

Definition sharp_toBuffer (input : Buffer) : M Buffer :=
  modify (log_call (SharpToBuffer input));; lift (sharp input).
Definition cloudinary_upload (fileUri : string) : M string :=
  modify (log_call (CloudinaryUpload fileUri));; lift (upload fileUri).

Definition addNewPost (caption : option string) (file : option File) (authorId : ObjectId)
  : Handler :=
  try_catch
    (match file with
     | None => mret (json 400 [("message", JString "Image required")])
     | Some image =>
         optimizedImageBuffer ← sharp_toBuffer (buffer image);
         let fileUri := "data:image/jpeg;base64," +:+ base64 optimizedImageBuffer in
         secure_url ← cloudinary_upload fileUri;
         post ← Post_create caption secure_url authorId;
         user ← User_findById authorId;
         match user with
         | Some user => User_save user [PushPosts (_id post)]
         | None => mret ()
         end;;
         view ← get (λ w, post_view w AllButPassword None post);
         mret (json 201 [("message", JString "New post added");
                         ("post", JPost view);
                         ("success", JBool true)])
     end)
    (failed "Post failed.").

(** The population both listings ask for. *)
Definition newest_comments_first : PopulateComments :=
  {| pc_sort := Some Descending;
     pc_options_sort := None;
     pc_populate_author := UsernameProfilePicture |}.

Definition getAllPost : Handler :=
  try_catch
    (found ← Post_find (λ _, True) (Some Descending);
     posts ← get (λ w, post_view w UsernameProfilePicture (Some newest_comments_first) <$> found);
     mret (json 200 [("posts", JPosts posts); ("success", JBool true)]))
    (failed "getAllPost failed.").

Definition getUserPost (authorId : ObjectId) : Handler :=
  try_catch
    (found ← Post_find (λ p, Post.author p = authorId) (Some Descending);
     posts ← get (λ w, post_view w UsernameProfilePicture (Some newest_comments_first) <$> found);
     mret (json 200 [("posts", JPosts posts); ("success", JBool true)]))
    (failed "getUserPost failed.").

(** [post.save()] follows an [updateOne] sent straight to the database: the
    loaded document itself was not modified, so there is nothing to save. *)
Definition likePost (postId userId : ObjectId) : Handler :=
  try_catch
    (post ← Post_findById postId;
     match post with
     | None => mret (json 404 [("message", JString "Post not found"); ("success", JBool false)])
     | Some post =>
         Post_updateOne post (with_likes (addToSet userId));;
         Post_save post [];;
         mret (json 200 [("message", JString "Post liked"); ("success", JBool true)])
     end)
    (failed "likePost failed.").

Definition dislikePost (postId userId : ObjectId) : Handler :=
  try_catch
    (post ← Post_findById postId;
     match post with
     | None => mret (json 404 [("message", JString "Post not found"); ("success", JBool false)])
     | Some post =>
         Post_updateOne post (with_likes (pull userId));;
         Post_save post [];;
         mret (json 200 [("message", JString "Post disliked"); ("success", JBool true)])
     end)
    (failed "dislikePost failed.").

Definition addComment (postId userId : ObjectId) (text : option string) : Handler :=
  try_catch
    (match truthy text with
     | None => mret (json 400 [("message", JString "Text is required"); ("success", JBool false)])
     | Some text =>
         post ← Post_findById postId;
         comment ← Comment_create text userId postId;
         view ← get (λ w, comment_view w UsernameProfilePicture comment);
         post ← prop "comments" post;
         Post_save post [PushComments (_id comment)];;
         mret (json 201 [("message", JString "Comment added");
                         ("comment", JComment view);
                         ("success", JBool true)])
     end)
    (failed "comment failed.").

(** [if (!comments)] never fires: [find] yields an array, and an array, even
    an empty one, is truthy. *)
Definition getCommentsOfPost (postId : ObjectId) : Handler :=
  try_catch
    (found ← Comment_find postId;
     comments ← get (λ w, comment_view w UsernameProfilePicture <$> found);
     mret (json 200 [("success", JBool true); ("comments", JComments comments)]))
    (failed "getCommentsOfPost failed.").

(** [postId] is the text of [req.params.id]: the three mapper calls cast it,
    the filter over [user.posts] compares it, as a string, with the text of
    each stored id. *)
Definition deletePost (postId : IdText) (authorId : ObjectId) : Handler :=
  try_catch
    (post ← Post_findById (cast postId);
     match post with
     | None => mret (json 404 [("message", JString "Post not found"); ("success", JBool false)])
     | Some post =>
         if decide (Post.author (fields post) ≠ authorId) then
           mret (json 403 [("message", JString "Unauthorized")])
         else
           Post_findByIdAndDelete (cast postId);;
           user ← User_findById authorId;
           user ← prop "posts" user;
           User_save user
             [SetPosts (filter (λ id, toString id ≠ postId) (User.posts (fields user)))];;
           Comment_deleteMany (cast postId);;
           mret (json 200 [("success", JBool true); ("message", JString "Post deleted")])
     end)
    (failed "deletePost failed.").

(** [user.bookmarks.includes(post._id)] on a document array compares the
    ObjectIds by value. *)
Definition bookmarkPost (postId userId : ObjectId) : Handler :=
  try_catch
    (post ← Post_findById postId;
     match post with
     | None => mret (json 404 [("message", JString "Post not found"); ("success", JBool false)])
     | Some post =>
         user ← User_findById userId;
         user ← prop "bookmarks" user;
         if decide (_id post ∈ User.bookmarks (fields user)) then
           User_updateOne user (with_bookmarks (pull (_id post)));;
           User_save user [];;
           mret (json 200 [("type", JString "unsaved");
                           ("message", JString "Post removed from bookmark");
                           ("success", JBool true)])
         else
           User_updateOne user (with_bookmarks (addToSet (_id post)));;
           User_save user [];;
           mret (json 200 [("type", JString "saved");
                           ("message", JString "Post bookmarked");
                           ("success", JBool true)])
     end)
    (failed "bookmarkPost failed.").

(** ** The server as a transition system *)

Inductive Request :=
  | AddNewPost (caption : option string) (file : option File) (id : ObjectId)
  | GetAllPost
  | GetUserPost (id : ObjectId)
  | LikePost (postId id : ObjectId)
  | DislikePost (postId id : ObjectId)
  | AddComment (postId id : ObjectId) (text : option string)
  | GetCommentsOfPost (postId : ObjectId)
  | DeletePost (postId : IdText) (id : ObjectId)
  | BookmarkPost (postId id : ObjectId).

Definition handle (r : Request) : Handler :=
  match r with
  | AddNewPost caption file id => addNewPost caption file id
  | GetAllPost => getAllPost
  | GetUserPost id => getUserPost id
  | LikePost postId id => likePost postId id
  | DislikePost postId id => dislikePost postId id
  | AddComment postId id text => addComment postId id text
  | GetCommentsOfPost postId => getCommentsOfPost postId
  | DeletePost postId id => deletePost postId id
  | BookmarkPost postId id => bookmarkPost postId id
  end.

(** What can happen to the world: time passes, the account subsystem (which
    owns the user collection and is outside the controller) rewrites the
    users, or a request is served. *)
Inductive Event :=
  | Tick (elapsed : N)
  | Accounts (us : gmap positive User.t)
  | Call (r : Request).

Definition step (w : World) (e : Event) : World :=
  match e with
  | Tick elapsed =>
      mkWorld (posts w) (comments w) (users w) (next_id w) (now w + elapsed) (calls w)
  | Accounts us => set_users (λ _, us) w
  | Call r => (handle r w).2
  end.

Definition initial : World := mkWorld ∅ ∅ ∅ 1 0 [].

Definition run (es : list Event) : World := foldl step initial es.

(** The worlds the server can be in. *)
Definition reachable (w : World) : Prop := ∃ es, run es = w.

End Controller.

(** ** Vocabulary of the properties *)

(** A list is newest first when no element is older than a later one. *)
Definition newest_first {A} (key : A → N) (l : list A) : Prop :=
  StronglySorted (by_createdAt key Descending) l.

(** The [posts] payload of a listing response. *)
Definition posts_of (r : Response) : list PostView :=
  match field "posts" (body r) with
  | Some (JPosts ps) => ps
  | _ => []
  end.

(** The comments attached to a listed post. *)
Definition comments_of (p : PostView) : list CommentView :=
  match pv_comments p with
  | inr cs => cs
  | inl _ => []
  end.

(** The ordering a listing is meant to have: posts newest first, and the
    comments of each post newest first. *)
Definition listing_newest_first (r : Response) : Prop :=
  newest_first pv_createdAt (posts_of r)
  ∧ Forall (λ p, newest_first cv_createdAt (comments_of p)) (posts_of r).

(** How often an id occurs in a stored array. *)
Definition occurrences (x : ObjectId) (l : list ObjectId) : nat :=
  length (filter (λ y, y = x) l).

#[global] Instance listing_newest_first_dec (r : Response) : Decision (listing_newest_first r) :=
  ltac:(unfold listing_newest_first, newest_first; apply _).

(** The opposite order: no element is newer than a later one. *)
Definition oldest_first {A} (key : A → N) (l : list A) : Prop :=
  StronglySorted (by_createdAt key Ascending) l.

(** Invariants of the reachable worlds. No post stores a like twice. The
    ObjectId generator is ahead of every stored comment. No comment is from
    the future, and a comment with a later id is not older. Every post stores
    its comment ids in increasing order, all behind the generator. *)
Definition likes_ok (m : gmap positive Post.t) : Prop :=
  map_Forall (λ _ p, NoDup (Post.likes p)) m.
Definition fresh_ok (m : gmap positive Comment.t) (n : ObjectId) : Prop :=
  map_Forall (λ id _, (id < n)%positive) m.
Definition times_ok (m : gmap positive Comment.t) (t : N) : Prop :=
  map_Forall (λ _ c, (Comment.createdAt c ≤ t)%N) m.
Definition ids_by_time (m : gmap positive Comment.t) : Prop :=
  ∀ i j ci cj, m !! i = Some ci → m !! j = Some cj → (i < j)%positive →
    (Comment.createdAt ci ≤ Comment.createdAt cj)%N.
Definition threads_ok (m : gmap positive Post.t) (n : ObjectId) : Prop :=
  map_Forall (λ _ p, StronglySorted Pos.lt (Post.comments p)
                     ∧ Forall (λ id, (id < n)%positive) (Post.comments p)) m.

Record Inv (w : World) : Prop := mkInv {
  inv_likes : likes_ok (posts w);
  inv_fresh : fresh_ok (comments w) (next_id w);
  inv_times : times_ok (comments w) (now w);
  inv_ids : ids_by_time (comments w);
  inv_threads : threads_ok (posts w) (next_id w)
}.

(** ** A concrete history

    Collaborators that never reject, one account, and a short history: the
    account is registered, posts an image, and comments on it twice, one
    clock tick apart. *)
Definition sharp_ok (input : Buffer) : Outcome Buffer := Ok input.
Definition base64_plain (b : Buffer) : string := b.
Definition upload_ok (fileUri : string) : Outcome string :=
  Ok ("https://res.cloudinary.com/" +:+ fileUri).

Definition ann : User.t := User.mk "ann" "ann.png" "secret" [] [].

Definition history : list Event :=
  [ Accounts {[ 7%positive := ann ]};
    Call (AddNewPost (Some "sunset") (Some (mkFile "pixels")) 7%positive);
    Tick 1;
    Call (AddComment 1%positive 7%positive (Some "first"));
    Tick 1;
    Call (AddComment 1%positive 7%positive (Some "second")) ].

Definition two_comments : World := run sharp_ok base64_plain upload_ok history.

(** The documents [two_comments] holds. *)
Definition sunset : Post.t :=
  Post.mk (Some "sunset") "https://res.cloudinary.com/data:image/jpeg;base64,pixels"
          7%positive [2%positive; 3%positive] [] 0.
Definition ann_with_post : User.t := User.mk "ann" "ann.png" "secret" [1%positive] [].

(** The creation times of the comments of each listed post, in listing order. *)
Definition comment_times (r : Response) : list (list N) :=
  (λ p, cv_createdAt <$> comments_of p) <$> posts_of r.

(** ** Further vocabulary *)

(** The [comments] payload of a comment listing. *)
Definition comments_payload (r : Response) : list CommentView :=
  match field "comments" (body r) with
  | Some (JComments cs) => cs
  | _ => []
  end.

(** The requests that reach the image pipeline: an add-post with a file. *)
Definition carries_image (r : Request) : bool :=
  match r with
  | AddNewPost _ (Some _) _ => true
  | _ => false
  end.

(** Two more invariants of the reachable worlds: the ObjectId generator is
    ahead of every stored post, and every comment id a post stores is the id
    of a stored comment that refers back to that post. *)
Definition posts_fresh (m : gmap positive Post.t) (n : ObjectId) : Prop :=
  map_Forall (λ id _, (id < n)%positive) m.
Definition linked (ps : gmap positive Post.t) (cs : gmap positive Comment.t) : Prop :=
  ∀ pid p cid, ps !! pid = Some p → cid ∈ Post.comments p →
    ∃ c, cs !! cid = Some c ∧ Comment.post c = pid.

Record Linked (w : World) : Prop := mkLinked {
  linked_inv : Inv w;
  linked_posts_fresh : posts_fresh (posts w) (next_id w);
  linked_threads : linked (posts w) (comments w)
}.

(** Collaborators that reject. *)
Definition sharp_rejects (input : Buffer) : Outcome Buffer :=
  Throw "Input buffer contains unsupported image format".
Definition upload_rejects (fileUri : string) : Outcome string :=
  Throw "Invalid image file".

(** A second account, which has bookmarked and liked Ann's post. *)
Definition bob : User.t := User.mk "bob" "bob.png" "hunter2" [] [1%positive].

Definition history_with_bob : list Event :=
  history ++ [ Accounts {[ 7%positive := ann_with_post; 8%positive := bob ]};
               Call (LikePost 1%positive 8%positive) ].

Definition with_bob : World := run sharp_ok base64_plain upload_ok history_with_bob.

Definition sunset_liked : Post.t :=
  Post.mk (Some "sunset") "https://res.cloudinary.com/data:image/jpeg;base64,pixels"
          7%positive [2%positive; 3%positive] [8%positive] 0.

(** A post whose author has no user document: nobody registered before
    requester 7 posted. *)
Definition unregistered_author : World :=
  run sharp_ok base64_plain upload_ok
    [ Call (AddNewPost None (Some (mkFile "pixels")) 7%positive) ].

Definition untitled : Post.t :=
  Post.mk None "https://res.cloudinary.com/data:image/jpeg;base64,pixels" 7%positive [] [] 0.

(** * Properties *)

(** Running a handler symbolically: unfold the monad and the mapper calls. *)
Ltac exec :=
  unfold try_catch, mbind, M_bind, mret, M_ret, get, modify, throw, lift, prop,
    Post_findById, User_findById, Post_updateOne, User_updateOne,
    Post_findByIdAndDelete, Comment_deleteMany, Comment_create; simpl.

Ltac unfold_handlers :=
  unfold addNewPost, getAllPost, getUserPost, likePost, dislikePost, addComment,
    getCommentsOfPost, deletePost, bookmarkPost, sharp_toBuffer, cloudinary_upload,
    Post_create, Post_find, Comment_find, Post_save, User_save.

(** ** Writes that change nothing *)

Lemma set_posts_id w f : f (posts w) = posts w → set_posts f w = w.
Proof. destruct w; unfold set_posts; simpl; intros ->; done. Qed.

Lemma set_users_id w f : f (users w) = users w → set_users f w = w.
Proof. destruct w; unfold set_users; simpl; intros ->; done. Qed.

Lemma save_unmodified_post w k : set_posts (alter (λ p, p) k) w = w.
Proof. apply set_posts_id, alter_id. done. Qed.

Lemma save_unmodified_user w k : set_users (alter (λ u, u) k) w = w.
Proof. apply set_users_id, alter_id. done. Qed.

Lemma with_likes_id f p : f (Post.likes p) = Post.likes p → with_likes f p = p.
Proof. destruct p; unfold with_likes; simpl. by intros ->. Qed.

Lemma with_bookmarks_id f u : f (User.bookmarks u) = User.bookmarks u → with_bookmarks f u = u.
Proof. destruct u; unfold with_bookmarks; simpl. by intros ->. Qed.

(** ** The update operators *)

Lemma pull_absent x l : x ∉ l → pull x l = l.
Proof.
  unfold pull. induction l as [|y l IH]; [done|].
  intros [Hxy Hxl]%not_elem_of_cons.
  rewrite filter_cons_True by congruence. by rewrite IH.
Qed.

Lemma not_elem_of_pull x l : x ∉ pull x l.
Proof. unfold pull. intros [Hne _]%list_elem_of_filter. done. Qed.

Lemma addToSet_present x l : x ∈ l → addToSet x l = l.
Proof. intros Hx. unfold addToSet. by rewrite decide_True. Qed.

Lemma addToSet_absent x l : x ∉ l → addToSet x l = l ++ [x].
Proof. intros Hx. unfold addToSet. by rewrite decide_False. Qed.

Lemma elem_of_addToSet x l : x ∈ addToSet x l.
Proof. unfold addToSet. case_decide; [done|]. set_solver. Qed.

Lemma addToSet_idemp x l : addToSet x (addToSet x l) = addToSet x l.
Proof. apply addToSet_present, elem_of_addToSet. Qed.

Lemma pull_addToSet x l : x ∉ l → pull x (addToSet x l) = l.
Proof.
  intros Hx. rewrite addToSet_absent by done.
  unfold pull. rewrite filter_app, filter_cons_False, filter_nil, app_nil_r by naive_solver.
  by apply pull_absent.
Qed.

Lemma addToSet_NoDup x l : NoDup l → NoDup (addToSet x l).
Proof.
  intros Hl. unfold addToSet. case_decide; [done|].
  apply NoDup_app. split_and!; [done| |apply NoDup_singleton].
  intros y Hy ->%list_elem_of_singleton. done.
Qed.

Lemma pull_NoDup x l : NoDup l → NoDup (pull x l).
Proof. apply NoDup_filter. Qed.

Lemma occurrences_absent x l : x ∉ l → occurrences x l = 0.
Proof.
  unfold occurrences. induction l as [|y l IH]; [done|].
  intros [Hxy Hxl]%not_elem_of_cons.
  rewrite filter_cons_False by congruence. auto.
Qed.

Lemma occurrences_NoDup x l : NoDup l → x ∈ l → occurrences x l = 1.
Proof.
  induction 1 as [|y l Hy Hl IH]; [by intros ?%elem_of_nil|].
  intros Hx. unfold occurrences. destruct (decide (y = x)) as [->|Hne].
  - rewrite filter_cons_True by done. simpl. f_equal. by apply occurrences_absent.
  - rewrite filter_cons_False by done. apply IH.
    apply elem_of_cons in Hx as [->|Hx]; done.
Qed.

(** ** Adding a post *)

(** C9: an add-post request that carries no image is answered with status 400
    and nothing else happens: the transcoder and the upload are not called
    (the log of external calls is unchanged), no post is created, and indeed
    the whole world is as before, whatever the collaborators would have done. *)
Theorem addNewPost_without_image
  (sharp : Buffer → Outcome Buffer) (base64 : Buffer → string) (upload : string → Outcome string)
  (caption : option string) (authorId : ObjectId) (w : World) :
  let r := (addNewPost sharp base64 upload caption None authorId w).1 in
  let w' := (addNewPost sharp base64 upload caption None authorId w).2 in
  status r = 400%N
  ∧ field "message" (body r) = Some (JString "Image required")
  ∧ calls w' = calls w
  ∧ posts w' = posts w
  ∧ w' = w.
Proof. done. Qed.

(** C5: not every response carries the [success] field. The answer to an
    add-post request without an image is the object [{ message }] alone: the
    envelope check fails on it. *)
Theorem addNewPost_without_image_lacks_success
  (sharp : Buffer → Outcome Buffer) (base64 : Buffer → string) (upload : string → Outcome string)
  (caption : option string) (authorId : ObjectId) (w : World) :
  (addNewPost sharp base64 upload caption None authorId w).1
    = json 400 [("message", JString "Image required")]
  ∧ has_success (addNewPost sharp base64 upload caption None authorId w).1 = false.
Proof. done. Qed.

(** ** Deleting a post *)

(** C3: a delete request for an existing post by anyone but its author is
    answered with status 403 and leaves the world, hence the post, its
    comments and the author's list of posts, exactly as it was. *)
Theorem deletePost_by_non_author
  (w : World) (postId : IdText) (requester : ObjectId) (p : Post.t) :
  posts w !! cast postId = Some p →
  Post.author p ≠ requester →
  deletePost postId requester w = (json 403 [("message", JString "Unauthorized")], w).
Proof.
  intros Hp Hne. unfold deletePost. exec. rewrite Hp. simpl.
  case_decide; [done|contradiction].
Qed.

(** The 403 answer is the second response without the [success] field. *)
Lemma deletePost_by_non_author_lacks_success w postId requester p :
  posts w !! cast postId = Some p →
  Post.author p ≠ requester →
  has_success (deletePost postId requester w).1 = false.
Proof.
  intros Hp Hne. unfold deletePost. exec. rewrite Hp. simpl.
  case_decide; [done|contradiction].
Qed.

Lemma with_posts_id f u : f (User.posts u) = User.posts u → with_posts f u = u.
Proof. destruct u; unfold with_posts; simpl. by intros ->. Qed.

Lemma filter_canonical (postId : ObjectId) (l : list ObjectId) :
  filter (λ id, toString id ≠ toString postId) l = filter (λ id, id ≠ postId) l.
Proof.
  apply list_filter_iff. intros id. unfold toString. split; [congruence|].
  intros Hne [= ->]. done.
Qed.

Lemma filter_variant (postId : IdText) (l : list ObjectId) :
  spelling postId = Variant →
  filter (λ id, toString id ≠ postId) l = l.
Proof.
  intros Hv. induction l as [|id l IH]; [done|].
  rewrite filter_cons_True; [by rewrite IH|].
  intros <-. discriminate.
Qed.

(** X29: when the author of an existing post, who has a user document, asks
    to delete it and the request spells the post id as [toString] prints it,
    the answer is 200 with [success: true]; afterwards the post is gone, the
    comments left are exactly the old ones that refer to other posts, and
    the author's list of posts is the old one without the post's id. Other
    posts and other users are untouched. *)
Theorem deletePost_by_author (w : World) (postId : ObjectId) (p : Post.t) (u : User.t) :
  posts w !! postId = Some p →
  users w !! Post.author p = Some u →
  let r := (deletePost (toString postId) (Post.author p) w).1 in
  let w' := (deletePost (toString postId) (Post.author p) w).2 in
  status r = 200%N
  ∧ field "success" (body r) = Some (JBool true)
  ∧ posts w' !! postId = None
  ∧ (∀ id c, comments w' !! id = Some c ↔ (comments w !! id = Some c ∧ Comment.post c ≠ postId))
  ∧ (∃ u', users w' !! Post.author p = Some u'
           ∧ (postId ∉ User.posts u')
           ∧ User.posts u' = filter (λ id, id ≠ postId) (User.posts u))
  ∧ (∀ id, id ≠ postId → posts w' !! id = posts w !! id)
  ∧ (∀ id, id ≠ Post.author p → users w' !! id = users w !! id).
Proof.
  intros Hp Hu. unfold deletePost. exec. rewrite Hp. simpl.
  case_decide; [done|]. simpl. rewrite Hu. simpl.
  split_and!; try done.
  - apply lookup_delete_eq.
  - intros id c. by rewrite map_lookup_filter_Some.
  - eexists. rewrite lookup_alter_eq, Hu. simpl. rewrite filter_canonical.
    split_and!; [done| |done].
    intros [Hne _]%list_elem_of_filter. done.
  - intros id Hne. by rewrite lookup_delete_ne.
  - intros id Hne. by rewrite lookup_alter_ne.
Qed.

(** C2: a delete request by the author does not always take the post's id
    out of the author's list of posts. When the request spells the id of an
    existing post otherwise than [toString] prints it (upper-case hex digits,
    say), the lookup, the deletion and the cascade cast the text and go
    through: the answer is 200 with [success: true], the post is gone and so
    are its comments. The filter over [user.posts] compares the text as a
    string, matches nothing, and saves the list as it was: the user
    collection is unchanged and the deleted post's id is still in the
    author's list. *)
Theorem deletePost_by_author_keeps_id
  (w : World) (postId : IdText) (p : Post.t) (u : User.t) :
  spelling postId = Variant →
  posts w !! cast postId = Some p →
  users w !! Post.author p = Some u →
  cast postId ∈ User.posts u →
  let r := (deletePost postId (Post.author p) w).1 in
  let w' := (deletePost postId (Post.author p) w).2 in
  status r = 200%N
  ∧ field "success" (body r) = Some (JBool true)
  ∧ posts w' !! cast postId = None
  ∧ (∀ id c, comments w' !! id = Some c
             ↔ (comments w !! id = Some c ∧ Comment.post c ≠ cast postId))
  ∧ users w' = users w
  ∧ (∃ u', users w' !! Post.author p = Some u' ∧ cast postId ∈ User.posts u').
Proof.
  intros Hv Hp Hu Hin. unfold deletePost. exec. rewrite Hp. simpl.
  case_decide; [done|]. simpl. rewrite Hu. simpl.
  assert (Hsame : alter (λ u0, with_posts
            (λ _, filter (λ id, toString id ≠ postId) (User.posts u)) u0)
            (Post.author p) (users w) = users w).
  { apply alter_id. intros v Hv'. simplify_eq.
    apply with_posts_id. by apply filter_variant. }
  split_and!; try done.
  - apply lookup_delete_eq.
  - intros id c. by rewrite map_lookup_filter_Some.
  - rewrite Hsame. by exists u.
Qed.

(** X28: why X29 asks for the author's user document: without it the post is
    deleted, then reading [user.posts] throws, the answer is 500 and the
    comments of the post stay behind. *)
Lemma deletePost_author_without_document w (postId : IdText) p :
  posts w !! cast postId = Some p →
  users w !! Post.author p = None →
  deletePost postId (Post.author p) w =
    (failed "deletePost failed." "Cannot read properties of null (reading 'posts')",
     set_posts (delete (cast postId)) w).
Proof.
  intros Hp Hu. unfold deletePost. exec. rewrite Hp. simpl.
  case_decide; [done|]. simpl. by rewrite Hu.
Qed.

(** ** Likes *)

Lemma likePost_found w postId userId p :
  posts w !! postId = Some p →
  likePost postId userId w =
    (json 200 [("message", JString "Post liked"); ("success", JBool true)],
     set_posts (alter (with_likes (addToSet userId)) postId) w).
Proof.
  intros Hp. unfold likePost. exec. rewrite Hp. simpl. by rewrite save_unmodified_post.
Qed.

(** C8: disliking an existing post that the user has not liked is answered
    with 200 and [success: true] and leaves the world, hence the likes of the
    post, unchanged. *)
Theorem dislikePost_never_liked (w : World) (postId userId : ObjectId) (p : Post.t) :
  posts w !! postId = Some p →
  userId ∉ Post.likes p →
  dislikePost postId userId w =
    (json 200 [("message", JString "Post disliked"); ("success", JBool true)], w).
Proof.
  intros Hp Hnot. unfold dislikePost. exec. rewrite Hp. simpl.
  rewrite save_unmodified_post. f_equal.
  apply set_posts_id, alter_id. intros q Hq. assert (q = p) as -> by congruence.
  by apply with_likes_id, pull_absent.
Qed.

(** ** Bookmarks *)

Lemma bookmarkPost_save w postId userId p u :
  posts w !! postId = Some p → users w !! userId = Some u → postId ∉ User.bookmarks u →
  bookmarkPost postId userId w =
    (json 200 [("type", JString "saved"); ("message", JString "Post bookmarked");
               ("success", JBool true)],
     set_users (alter (with_bookmarks (addToSet postId)) userId) w).
Proof.
  intros Hp Hu Hb. unfold bookmarkPost. exec. rewrite Hp. simpl. rewrite Hu. simpl.
  rewrite decide_False by done. simpl. by rewrite save_unmodified_user.
Qed.

Lemma bookmarkPost_unsave w postId userId p u :
  posts w !! postId = Some p → users w !! userId = Some u → postId ∈ User.bookmarks u →
  bookmarkPost postId userId w =
    (json 200 [("type", JString "unsaved"); ("message", JString "Post removed from bookmark");
               ("success", JBool true)],
     set_users (alter (with_bookmarks (pull postId)) userId) w).
Proof.
  intros Hp Hu Hb. unfold bookmarkPost. exec. rewrite Hp. simpl. rewrite Hu. simpl.
  rewrite decide_True by done. simpl. by rewrite save_unmodified_user.
Qed.

(** C6: for a user with a user document and an existing post that is not
    among the user's bookmarks, two bookmark requests in a row answer
    [type: 'saved'] and then [type: 'unsaved'], both with status 200; the
    post's id is in the bookmarks in between, and after the second request
    the bookmarks, and the whole world, are what they were at the start. *)
Theorem bookmarkPost_twice (w : World) (postId userId : ObjectId) (p : Post.t) (u : User.t) :
  posts w !! postId = Some p →
  users w !! userId = Some u →
  postId ∉ User.bookmarks u →
  let first := bookmarkPost postId userId w in
  let second := bookmarkPost postId userId first.2 in
  status first.1 = 200%N
  ∧ field "type" (body first.1) = Some (JString "saved")
  ∧ status second.1 = 200%N
  ∧ field "type" (body second.1) = Some (JString "unsaved")
  ∧ (User.bookmarks <$> (users first.2 !! userId)) = Some (User.bookmarks u ++ [postId])
  ∧ (User.bookmarks <$> (users second.2 !! userId)) = Some (User.bookmarks u)
  ∧ second.2 = w.
Proof.
  intros Hp Hu Hb first second.
  pose proof (bookmarkPost_save w postId userId p u Hp Hu Hb) as H1. fold first in H1.
  assert (Hu1 : users first.2 !! userId = Some (with_bookmarks (addToSet postId) u)).
  { rewrite H1. simpl. by rewrite lookup_alter_eq, Hu. }
  assert (Hp1 : posts first.2 !! postId = Some p) by by rewrite H1.
  pose proof (bookmarkPost_unsave first.2 postId userId p _ Hp1 Hu1 (elem_of_addToSet _ _)) as H2.
  fold second in H2.
  assert (Hw : second.2 = w).
  { rewrite H2, H1. simpl. unfold set_users at 1. simpl.
    rewrite alter_alter_eq. apply set_users_id, alter_id. intros v Hv. simplify_eq.
    change (with_bookmarks (pull postId ∘ addToSet postId) u = u).
    apply with_bookmarks_id. simpl. by apply pull_addToSet. }
  split_and!.
  - by rewrite H1.
  - by rewrite H1.
  - by rewrite H2.
  - by rewrite H2.
  - rewrite Hu1. simpl. by rewrite addToSet_absent.
  - by rewrite Hw, Hu.
  - done.
Qed.

(** ** Comments on a post that does not exist *)

Lemma addComment_missing_post w postId userId text t :
  posts w !! postId = None →
  truthy text = Some t →
  addComment postId userId text w =
    (failed "comment failed." "Cannot read properties of null (reading 'comments')",
     bump_id (set_comments (insert (next_id w) (Comment.mk t userId postId (now w))) w)).
Proof.
  intros Hp Ht. unfold addComment. rewrite Ht. exec. by rewrite Hp.
Qed.

(** C1: a comment with non-empty text on a post id that no post has is not
    answered with 404. The handler does not test the result of the lookup;
    reading [post.comments] throws, and the catch block answers with status
    500 and [success: false]. *)
Theorem addComment_missing_post_status
  (w : World) (postId userId : ObjectId) (text : option string) (t : string) :
  posts w !! postId = None →
  truthy text = Some t →
  let r := (addComment postId userId text w).1 in
  status r = 500%N
  ∧ status r ≠ 404%N
  ∧ field "success" (body r) = Some (JBool false)
  ∧ field "message" (body r) = Some (JString "comment failed.").
Proof.
  intros Hp Ht r. unfold r. rewrite (addComment_missing_post _ _ _ _ _ Hp Ht). done.
Qed.

(** ** Invariants of the reachable worlds *)

Lemma likes_ok_alter f k m :
  (∀ p, NoDup (Post.likes p) → NoDup (Post.likes (f p))) →
  likes_ok m → likes_ok (alter f k m).
Proof.
  intros Hf Hm i p. rewrite lookup_alter. case_decide; subst.
  - destruct (m !! i) as [q|] eqn:Hq; simpl; [|done].
    intros [= <-]. eauto.
  - apply Hm.
Qed.

Lemma likes_ok_alter_likes f k m :
  (∀ l, NoDup l → NoDup (f l)) → likes_ok m → likes_ok (alter (with_likes f) k m).
Proof. intros Hf. apply likes_ok_alter. intros p. apply Hf. Qed.

Lemma likes_ok_alter_same f k m :
  (∀ p, Post.likes (f p) = Post.likes p) → likes_ok m → likes_ok (alter f k m).
Proof. intros Hf. apply likes_ok_alter. intros p. by rewrite Hf. Qed.

Lemma likes_ok_insert k p m : NoDup (Post.likes p) → likes_ok m → likes_ok (<[k:=p]> m).
Proof. intros. by apply map_Forall_insert_2. Qed.

Lemma likes_ok_delete k m : likes_ok m → likes_ok (delete k m).
Proof. apply map_Forall_delete. Qed.

Lemma fresh_ok_succ m n : fresh_ok m n → fresh_ok m (Pos.succ n).
Proof. intros Hm i c Hi. specialize (Hm i c Hi). simpl in *. lia. Qed.

Lemma fresh_ok_insert c m n : fresh_ok m n → fresh_ok (<[n:=c]> m) (Pos.succ n).
Proof. intros Hm. apply map_Forall_insert_2; [lia|by apply fresh_ok_succ]. Qed.

Lemma fresh_ok_filter (P : positive * Comment.t → Prop) `{∀ x, Decision (P x)} m n :
  fresh_ok m n → fresh_ok (filter P m) n.
Proof. intros Hm i c [Hi _]%map_lookup_filter_Some. by apply (Hm i c). Qed.

Lemma fresh_ok_next m n : fresh_ok m n → m !! n = None.
Proof.
  intros Hm. destruct (m !! n) as [c|] eqn:Hn; [|done].
  specialize (Hm n c Hn). simpl in Hm. lia.
Qed.

Lemma times_ok_later m t d : times_ok m t → times_ok m (t + d).
Proof. intros Hm i c Hi. specialize (Hm i c Hi). simpl in *. lia. Qed.

Lemma times_ok_insert k text author post m t :
  times_ok m t → times_ok (<[k := Comment.mk text author post t]> m) t.
Proof. intros Hm. apply map_Forall_insert_2; [simpl; lia|done]. Qed.

Lemma times_ok_filter (P : positive * Comment.t → Prop) `{∀ x, Decision (P x)} m t :
  times_ok m t → times_ok (filter P m) t.
Proof. intros Hm i c [Hi _]%map_lookup_filter_Some. by apply (Hm i c). Qed.

Lemma ids_by_time_insert text author post m n t :
  fresh_ok m n → times_ok m t → ids_by_time m →
  ids_by_time (<[n := Comment.mk text author post t]> m).
Proof.
  intros Hf Ht Hm i j ci cj. rewrite !lookup_insert.
  repeat case_decide; subst; intros Hi Hj Hlt; simplify_eq; simpl.
  - lia.
  - specialize (Hf j cj Hj). simpl in Hf. lia.
  - by apply (Ht i ci).
  - by eapply Hm.
Qed.

Lemma ids_by_time_filter (P : positive * Comment.t → Prop) `{∀ x, Decision (P x)} m :
  ids_by_time m → ids_by_time (filter P m).
Proof.
  intros Hm i j ci cj [Hi _]%map_lookup_filter_Some [Hj _]%map_lookup_filter_Some.
  by eapply Hm.
Qed.

Lemma threads_ok_alter f k m n :
  (∀ p, Post.comments (f p) = Post.comments p) →
  threads_ok m n → threads_ok (alter f k m) n.
Proof.
  intros Hf Hm i p. rewrite lookup_alter. case_decide; subst.
  - destruct (m !! i) as [q|] eqn:Hq; simpl; [|done].
    intros [= <-]. rewrite Hf. by apply (Hm i q).
  - apply Hm.
Qed.

Lemma threads_ok_succ m n : threads_ok m n → threads_ok m (Pos.succ n).
Proof.
  intros Hm i p Hi. destruct (Hm i p Hi) as [Hs Hb]. split; [done|].
  eapply Forall_impl; [exact Hb|]. simpl. lia.
Qed.

Lemma threads_ok_push k m n :
  threads_ok m n →
  threads_ok (alter (λ p, with_comments (λ l, l ++ [n]) p) k m) (Pos.succ n).
Proof.
  intros Hm i p. rewrite lookup_alter. case_decide; subst.
  - destruct (m !! i) as [q|] eqn:Hq; simpl; [|done].
    intros [= <-]. destruct (Hm i q Hq) as [Hs Hb]. simpl. split.
    + apply StronglySorted_app_2; [|done|repeat constructor].
      intros x y Hx ->%list_elem_of_singleton.
      by apply (proj1 (Forall_forall _ _) Hb).
    + apply Forall_app. split; [|repeat constructor; lia].
      eapply Forall_impl; [exact Hb|]. simpl. lia.
  - intros Hi. by apply (threads_ok_succ m n Hm i p).
Qed.

Lemma threads_ok_insert k caption image author likes createdAt m n :
  threads_ok m n → threads_ok (<[k := Post.mk caption image author [] likes createdAt]> m) n.
Proof. intros Hm. apply map_Forall_insert_2; [|done]. simpl. split; constructor. Qed.

Lemma threads_ok_delete k m n : threads_ok m n → threads_ok (delete k m) n.
Proof. apply map_Forall_delete. Qed.

Create HintDb inv.
#[local] Hint Resolve likes_ok_alter_likes likes_ok_alter_same likes_ok_insert likes_ok_delete
  fresh_ok_succ fresh_ok_insert fresh_ok_filter addToSet_NoDup pull_NoDup NoDup_nil_2
  times_ok_later times_ok_insert times_ok_filter ids_by_time_insert ids_by_time_filter
  threads_ok_alter threads_ok_succ threads_ok_push threads_ok_insert threads_ok_delete : inv.

Section Server.

Variable sharp : Buffer → Outcome Buffer.
Variable base64 : Buffer → string.
Variable upload : string → Outcome string.

(** Case analysis on everything a handler branches on. *)
Ltac split_cases :=
  repeat (simpl; match goal with
    | |- context [posts ?w !! ?k] => destruct (posts w !! k) eqn:?
    | |- context [users ?w !! ?k] => destruct (users w !! k) eqn:?
    | |- context [decide ?P] => destruct (decide P)
    | |- context [sharp ?b] => destruct (sharp b) eqn:?
    | |- context [upload ?b] => destruct (upload b) eqn:?
    | |- context [truthy ?t] => destruct (truthy t) eqn:?
    | |- context [match ?f with Some _ => _ | None => _ end] => is_var f; destruct f
    end).

Lemma Inv_initial : Inv initial.
Proof.
  split; try apply map_Forall_empty.
  intros i j ci cj Hi. simpl in Hi. by rewrite lookup_empty in Hi.
Qed.

Lemma Inv_handle r w : Inv w → Inv (handle sharp base64 upload r w).2.
Proof.
  intros [Hl Hf Ht Hi Hp].
  destruct r; simpl; unfold_handlers; exec; split_cases; split; simpl; eauto 6 with inv.
Qed.

Lemma Inv_step e w : Inv w → Inv (step sharp base64 upload w e).
Proof.
  destruct e as [elapsed|us|r]; [| |apply Inv_handle].
  - intros [Hl Hf Ht Hi Hp]. split; simpl; auto with inv.
  - by intros [Hl Hf Ht Hi Hp].
Qed.

Lemma Inv_reachable w : reachable sharp base64 upload w → Inv w.
Proof.
  intros [es <-]. unfold run. generalize Inv_initial. generalize initial.
  induction es as [|e es IH]; intros w0 H0; simpl; [done|].
  by apply IH, Inv_step.
Qed.

(** C7: in every world the server can reach, liking an existing post twice
    in a row by the same user gives the world that liking it once gives: both
    requests are answered with 200, the second leaves the post (so its likes
    and their number) as the first left it, and the user's id occurs exactly
    once among the likes. *)
Theorem likePost_twice (w : World) (postId userId : ObjectId) (p : Post.t) :
  reachable sharp base64 upload w →
  posts w !! postId = Some p →
  let once := likePost postId userId w in
  let twice := likePost postId userId once.2 in
  status once.1 = 200%N
  ∧ status twice.1 = 200%N
  ∧ twice.2 = once.2
  ∧ ∃ p1 p2, posts once.2 !! postId = Some p1
      ∧ posts twice.2 !! postId = Some p2
      ∧ Post.likes p1 = addToSet userId (Post.likes p)
      ∧ Post.likes p2 = Post.likes p1
      ∧ length (Post.likes p2) = length (Post.likes p1)
      ∧ occurrences userId (Post.likes p2) = 1.
Proof.
  intros Hw Hp once twice.
  pose proof (likePost_found w postId userId p Hp) as Honce. fold once in Honce.
  assert (Hp1 : posts once.2 !! postId = Some (with_likes (addToSet userId) p)).
  { rewrite Honce. simpl. by rewrite lookup_alter_eq, Hp. }
  pose proof (likePost_found once.2 postId userId _ Hp1) as Htwice. fold twice in Htwice.
  assert (Hsame : twice.2 = once.2).
  { rewrite Htwice. simpl.
    apply set_posts_id, alter_id. intros q Hq. simplify_eq.
    apply with_likes_id. simpl. apply addToSet_idemp. }
  split_and!.
  - by rewrite Honce.
  - by rewrite Htwice.
  - done.
  - exists (with_likes (addToSet userId) p), (with_likes (addToSet userId) p).
    rewrite Hsame. split_and!; try done.
    simpl. apply occurrences_NoDup; [|apply elem_of_addToSet].
    apply addToSet_NoDup. apply Inv_reachable, inv_likes in Hw. by apply (Hw postId p).
Qed.

(** C10: in every world the server can reach, a comment with non-empty text
    on a post id that no post has is stored before the request fails: the
    answer is 500 with [success: false], yet the comment collection has gained
    a document, under an id that was free, whose post reference is the
    missing id. The collection is not what it was before the request. *)
Theorem addComment_missing_post_persists
  (w : World) (postId userId : ObjectId) (text : option string) (t : string) :
  reachable sharp base64 upload w →
  posts w !! postId = None →
  truthy text = Some t →
  let r := (addComment postId userId text w).1 in
  let w' := (addComment postId userId text w).2 in
  status r = 500%N
  ∧ field "success" (body r) = Some (JBool false)
  ∧ comments w !! next_id w = None
  ∧ comments w' !! next_id w = Some (Comment.mk t userId postId (now w))
  ∧ comments w' = <[next_id w := Comment.mk t userId postId (now w)]> (comments w)
  ∧ comments w' ≠ comments w
  ∧ posts w' = posts w.
Proof.
  intros Hw Hp Ht r w'. unfold r, w'.
  rewrite (addComment_missing_post _ _ _ _ _ Hp Ht). simpl.
  apply Inv_reachable, inv_fresh, fresh_ok_next in Hw. rename Hw into Hf.
  split_and!; try done.
  - apply lookup_insert_eq.
  - intros Heq. rewrite <-Heq, lookup_insert_eq in Hf. done.
Qed.

(** X26: every response carries the [success] field, but for the two that are
    the object [{ message }] alone: the 400 of an add-post request without an
    image and the 403 of a delete request by a non-author. *)
Lemma envelope_but_for_two r w :
  has_success (handle sharp base64 upload r w).1 = true
  ∨ (handle sharp base64 upload r w).1 = json 400 [("message", JString "Image required")]
  ∨ (handle sharp base64 upload r w).1 = json 403 [("message", JString "Unauthorized")].
Proof.
  destruct r; simpl; unfold_handlers; exec; split_cases; auto.
Qed.

End Server.

(** ** Listings *)

#[global] Instance by_createdAt_trans {A} (key : A → N) o : Transitive (by_createdAt key o).
Proof. destruct o; intros a b c; simpl; lia. Qed.

#[global] Instance by_createdAt_total {A} (key : A → N) o : Total (by_createdAt key o).
Proof. destruct o; intros a b; simpl; lia. Qed.

Lemma filter_everything {A} (l : list A) : filter (λ _, True) l = l.
Proof. induction l as [|x l IH]; [done|]. rewrite filter_cons_True by done. by rewrite IH. Qed.

Lemma elem_of_docs {T} (m : gmap positive T) (d : Doc T) :
  d ∈ docs m ↔ m !! _id d = Some (fields d).
Proof.
  unfold docs. rewrite list_elem_of_fmap. split.
  - intros [[k v] [-> Hkv]]. simpl. by apply elem_of_map_to_list.
  - intros Hd. exists (_id d, fields d). split; [by destruct d|].
    by apply elem_of_map_to_list.
Qed.

Lemma getAllPost_result w :
  getAllPost w =
    (json 200
       [("posts", JPosts (post_view w UsernameProfilePicture (Some newest_comments_first)
                   <$> merge_sort (by_createdAt (λ d, Post.createdAt (fields d)) Descending)
                         (filter (λ _, True) (docs (posts w)))));
        ("success", JBool true)],
     w).
Proof. done. Qed.

(** X25: the half of the listing order that holds: the listing answers 200
    with every stored post, once each, newest first, and changes nothing. *)
Lemma getAllPost_posts_newest_first w :
  let r := (getAllPost w).1 in
  status r = 200%N
  ∧ field "success" (body r) = Some (JBool true)
  ∧ newest_first pv_createdAt (posts_of r)
  ∧ posts_of r ≡ₚ post_view w UsernameProfilePicture (Some newest_comments_first)
                    <$> docs (posts w)
  ∧ (getAllPost w).2 = w.
Proof.
  rewrite getAllPost_result. simpl. unfold posts_of. simpl. split_and!; try done.
  - unfold newest_first.
    eapply StronglySorted_fmap;
      [|apply (StronglySorted_merge_sort
                 (by_createdAt (λ d : Doc Post.t, Post.createdAt (fields d)) Descending))].
    intros x y Hxy. exact Hxy.
  - by rewrite merge_sort_Permutation, filter_everything.
Qed.

Lemma populate_comments_unsorted w s ids :
  cv_id <$> populate_comments w (mkPopulateComments s None UsernameProfilePicture) ids
  = filter (λ id, is_Some (comments w !! id)) ids.
Proof.
  unfold populate_comments, sort_by. cbn [pc_options_sort pc_populate_author].
  induction ids as [|id ids IH]; [done|]. cbn [omap list_omap].
  destruct (comments w !! id) as [c|] eqn:Hc; cbn [fmap option_fmap option_map].
  - rewrite filter_cons_True by (rewrite Hc; eauto).
    rewrite !fmap_cons. by rewrite IH.
  - rewrite filter_cons_False by (rewrite Hc; by intros [??]). done.
Qed.

(** The order the comments do come in: under each listed post, the comments
    are the stored comment ids of that post that still have a document, in
    the order the post stores them, which is the order they were added in. *)
Lemma getAllPost_comments_in_stored_order w :
  Forall (λ v, ∃ p, posts w !! pv_id v = Some p
                ∧ cv_id <$> comments_of v
                  = filter (λ id, is_Some (comments w !! id)) (Post.comments p))
         (posts_of (getAllPost w).1).
Proof.
  rewrite getAllPost_result. unfold posts_of. simpl.
  apply Forall_fmap, Forall_forall. intros d Hd. simpl.
  rewrite merge_sort_Permutation, filter_everything in Hd.
  apply elem_of_docs in Hd. exists (fields d). split; [done|].
  unfold comments_of. simpl. apply populate_comments_unsorted.
Qed.

Lemma populate_comments_oldest_first w s ids :
  ids_by_time (comments w) →
  StronglySorted Pos.lt ids →
  oldest_first cv_createdAt
    (populate_comments w (mkPopulateComments s None UsernameProfilePicture) ids).
Proof.
  intros Hw. unfold oldest_first, populate_comments, sort_by.
  cbn [pc_options_sort pc_populate_author].
  induction 1 as [|id ids Hids IH Hlt]; [constructor|]. cbn [omap list_omap].
  destruct (comments w !! id) as [c|] eqn:Hc; cbn [fmap option_fmap option_map]; [|done].
  rewrite fmap_cons. constructor; [done|].
  apply Forall_fmap, Forall_forall. intros d [id' [Hin Hd]]%list_elem_of_omap.
  destruct (comments w !! id') as [c'|] eqn:Hc'; simplify_eq/=.
  eapply Hw; [exact Hc|exact Hc'|].
  by apply (proj1 (Forall_forall _ _) Hlt).
Qed.

(** X27: in every world the server can reach, the comments under each listed
    post come oldest first. *)
Lemma getAllPost_lists_comments_oldest_first
  (sharp : Buffer → Outcome Buffer) (base64 : Buffer → string) (upload : string → Outcome string)
  (w : World) :
  reachable sharp base64 upload w →
  Forall (λ v, oldest_first cv_createdAt (comments_of v)) (posts_of (getAllPost w).1).
Proof.
  intros Hw%Inv_reachable.
  rewrite getAllPost_result. unfold posts_of. simpl.
  apply Forall_fmap, Forall_forall. intros d Hd. simpl.
  rewrite merge_sort_Permutation, filter_everything in Hd.
  apply elem_of_docs in Hd. unfold comments_of. simpl.
  apply populate_comments_oldest_first; [by apply inv_ids|].
  by apply (inv_threads _ Hw (_id d) (fields d)).
Qed.

(** C4: the listing does not put the comments of a post newest first. After
    the history [history] (one post, commented at time 1 and again at time 2)
    the listing returns the two comments in the order they were added, the
    older one first: the [sort] key handed to [populate] sits beside [path],
    not under [options], and the population keeps the order of the stored
    ids. *)
Theorem getAllPost_comments_oldest_first :
  reachable sharp_ok base64_plain upload_ok two_comments
  ∧ posts two_comments !! 1%positive = Some sunset
  ∧ status (getAllPost two_comments).1 = 200%N
  ∧ comment_times (getAllPost two_comments).1 = [[1; 2]]%N
  ∧ ¬ listing_newest_first (getAllPost two_comments).1.
Proof.
  split_and!.
  - exists history. vm_compute. reflexivity.
  - by vm_compute.
  - done.
  - by vm_compute.
  - apply (bool_decide_eq_false_1 (listing_newest_first (getAllPost two_comments).1)).
    by vm_compute.
Qed.

(** ** The properties at work on the concrete history *)

(** Ann deletes her post: the post and both comments are gone. *)
Lemma deletePost_by_author_witness :
  status (deletePost (toString 1) 7 two_comments).1 = 200%N
  ∧ posts (deletePost (toString 1) 7 two_comments).2 !! 1%positive = None
  ∧ (∀ id c, comments (deletePost (toString 1) 7 two_comments).2 !! id = Some c →
             Comment.post c ≠ 1%positive).
Proof.
  destruct (deletePost_by_author two_comments 1 sunset ann_with_post)
    as (Hstatus & _ & Hpost & Hcomments & _).
  - vm_compute. reflexivity.
  - vm_compute. reflexivity.
  - split_and!; [exact Hstatus|exact Hpost|].
    intros id c Hc. apply Hcomments in Hc. exact (proj2 Hc).
Defined.

(** User 8 asks to delete Ann's post. *)
Lemma deletePost_by_non_author_witness :
  deletePost (toString 1) 8 two_comments
  = (json 403 [("message", JString "Unauthorized")], two_comments).
Proof.
  apply (deletePost_by_non_author two_comments (toString 1) 8 sunset).
  - vm_compute. reflexivity.
  - simpl. lia.
Defined.

(** Ann bookmarks her own post, then bookmarks it again. *)
Lemma bookmarkPost_twice_witness :
  field "type" (body (bookmarkPost 1 7 two_comments).1) = Some (JString "saved")
  ∧ field "type" (body (bookmarkPost 1 7 (bookmarkPost 1 7 two_comments).2).1)
    = Some (JString "unsaved")
  ∧ (bookmarkPost 1 7 (bookmarkPost 1 7 two_comments).2).2 = two_comments.
Proof.
  destruct (bookmarkPost_twice two_comments 1 7 sunset ann_with_post)
    as (_ & Hsaved & _ & Hunsaved & _ & _ & Hback).
  - vm_compute. reflexivity.
  - vm_compute. reflexivity.
  - simpl. apply not_elem_of_nil.
  - split_and!; [exact Hsaved|exact Hunsaved|exact Hback].
Defined.

(** User 8 likes Ann's post twice. *)
Lemma likePost_twice_witness :
  (likePost 1 8 (likePost 1 8 two_comments).2).2 = (likePost 1 8 two_comments).2.
Proof.
  destruct (likePost_twice sharp_ok base64_plain upload_ok two_comments 1 8 sunset)
    as (_ & _ & Hsame & _).
  - exists history. vm_compute. reflexivity.
  - vm_compute. reflexivity.
  - exact Hsame.
Defined.

(** User 8 dislikes Ann's post without having liked it. *)
Lemma dislikePost_never_liked_witness :
  dislikePost 1 8 two_comments =
    (json 200 [("message", JString "Post disliked"); ("success", JBool true)], two_comments).
Proof.
  apply (dislikePost_never_liked two_comments 1 8 sunset).
  - vm_compute. reflexivity.
  - simpl. apply not_elem_of_nil.
Defined.

(** Ann comments on post 9, which does not exist. *)
Lemma addComment_missing_post_status_witness :
  status (addComment 9 7 (Some "hello") two_comments).1 = 500%N
  ∧ status (addComment 9 7 (Some "hello") two_comments).1 ≠ 404%N.
Proof.
  destruct (addComment_missing_post_status two_comments 9 7 (Some "hello") "hello")
    as (H500 & H404 & _).
  - vm_compute. reflexivity.
  - reflexivity.
  - split; [exact H500|exact H404].
Defined.

Lemma addComment_missing_post_persists_witness :
  comments (addComment 9 7 (Some "hello") two_comments).2 !! 4%positive
    = Some (Comment.mk "hello" 7 9 2)
  ∧ comments two_comments !! 4%positive = None.
Proof.
  destruct (addComment_missing_post_persists sharp_ok base64_plain upload_ok
              two_comments 9 7 (Some "hello") "hello")
    as (_ & _ & Hfree & Hstored & _).
  - exists history. vm_compute. reflexivity.
  - vm_compute. reflexivity.
  - reflexivity.
  - split; [exact Hstored|exact Hfree].
Defined.

(** * Further properties of the handlers *)

(** ** Adding a post, with an image *)

Lemma addNewPost_result
  (sharp : Buffer → Outcome Buffer) (base64 : Buffer → string) (upload : string → Outcome string)
  caption image authorId w optimized url :
  sharp (buffer image) = Ok optimized →
  upload ("data:image/jpeg;base64," +:+ base64 optimized) = Ok url →
  url ≠ "" →
  let fileUri := "data:image/jpeg;base64," +:+ base64 optimized in
  let stored := Post.mk caption url authorId [] [] (now w) in
  let w' :=
    set_users (alter (with_posts (λ l, l ++ [next_id w])) authorId)
      (bump_id (set_posts (insert (next_id w) stored)
         (log_call (CloudinaryUpload fileUri) (log_call (SharpToBuffer (buffer image)) w)))) in
  addNewPost sharp base64 upload caption (Some image) authorId w =
    (json 201 [("message", JString "New post added");
               ("post", JPost (post_view w' AllButPassword None (mkDoc (next_id w) stored)));
               ("success", JBool true)],
     w').
Proof.
  intros Hsharp Hupload Hurl. unfold addNewPost, sharp_toBuffer, cloudinary_upload, Post_create.
  exec. rewrite Hsharp. simpl. rewrite Hupload. simpl.
  rewrite decide_False by done. simpl.
  destruct (users w !! authorId) as [u|] eqn:Hu; simpl; unfold User_save; exec.
  - done.
  - rewrite (set_users_id _ (alter _ authorId)); [done|].
    apply alter_id. simpl. intros v Hv. congruence.
Qed.

(** X1: an add-post request with an image that the pipeline transcodes and
    the storage accepts (returning a non-empty URL) is answered 201 with
    [success: true]. It stores one new post under the next generated id, with
    the caption, the URL, the requester as author, no comments, no likes and
    the current time; it appends that id to the author's list of posts; it
    calls the transcoder and then the upload, once each; and it leaves every
    other post, every comment and every other user as they were. *)
Theorem addNewPost_stores_post
  (sharp : Buffer → Outcome Buffer) (base64 : Buffer → string) (upload : string → Outcome string)
  (caption : option string) (image : File) (authorId : ObjectId) (w : World)
  (optimized : Buffer) (url : string) :
  sharp (buffer image) = Ok optimized →
  upload ("data:image/jpeg;base64," +:+ base64 optimized) = Ok url →
  url ≠ "" →
  let r := (addNewPost sharp base64 upload caption (Some image) authorId w).1 in
  let w' := (addNewPost sharp base64 upload caption (Some image) authorId w).2 in
  status r = 201%N
  ∧ field "success" (body r) = Some (JBool true)
  ∧ posts w' = <[next_id w := Post.mk caption url authorId [] [] (now w)]> (posts w)
  ∧ users w' = alter (with_posts (λ l, l ++ [next_id w])) authorId (users w)
  ∧ comments w' = comments w
  ∧ next_id w' = Pos.succ (next_id w)
  ∧ calls w' = calls w ++ [SharpToBuffer (buffer image);
                           CloudinaryUpload ("data:image/jpeg;base64," +:+ base64 optimized)].
Proof.
  intros Hsharp Hupload Hurl r w'. unfold r, w'.
  rewrite (addNewPost_result _ _ _ _ _ _ _ _ _ Hsharp Hupload Hurl). simpl.
  split_and!; try done. by rewrite <-app_assoc.
Qed.

(** X2: the post returned by a successful add-post request is populated
    after the author's list was saved: its author is the requester's user
    document without the password, whose list of posts already ends with the
    new post's id, and its comments and likes are empty. When the requester
    has no user document, the post is stored all the same, its author in the
    response is null, and the user collection is unchanged. *)
Theorem addNewPost_response
  (sharp : Buffer → Outcome Buffer) (base64 : Buffer → string) (upload : string → Outcome string)
  (caption : option string) (image : File) (authorId : ObjectId) (w : World)
  (optimized : Buffer) (url : string) :
  sharp (buffer image) = Ok optimized →
  upload ("data:image/jpeg;base64," +:+ base64 optimized) = Ok url →
  url ≠ "" →
  let r := (addNewPost sharp base64 upload caption (Some image) authorId w).1 in
  let w' := (addNewPost sharp base64 upload caption (Some image) authorId w).2 in
  let author :=
    match users w !! authorId with
    | Some u => Some (mkUserView authorId (User.username u) (User.profilePicture u)
                        (Some (User.posts u ++ [next_id w])) (Some (User.bookmarks u)))
    | None => None
    end in
  field "post" (body r)
    = Some (JPost (mkPostView (next_id w) caption url author (inl []) [] (now w)))
  ∧ (users w !! authorId = None →
       users w' = users w ∧ posts w' !! next_id w
                            = Some (Post.mk caption url authorId [] [] (now w))).
Proof.
  intros Hsharp Hupload Hurl r w'. unfold r, w'.
  rewrite (addNewPost_result _ _ _ _ _ _ _ _ _ Hsharp Hupload Hurl). simpl.
  unfold post_view, populate_user. simpl. rewrite lookup_alter_eq.
  destruct (users w !! authorId) as [u|] eqn:Hu; simpl; split; try done.
  intros _. split; [|apply lookup_insert_eq].
  apply alter_id. intros v Hv. congruence.
Qed.

(** X3: when the image pipeline rejects the image, the request is answered
    500 with [success: false] and the pipeline's message as [error]; the
    upload is never called, and posts, comments, users and the id generator
    are unchanged. *)
Theorem addNewPost_sharp_rejects
  (sharp : Buffer → Outcome Buffer) (base64 : Buffer → string) (upload : string → Outcome string)
  (caption : option string) (image : File) (authorId : ObjectId) (w : World) (e : string) :
  sharp (buffer image) = Throw e →
  let r := (addNewPost sharp base64 upload caption (Some image) authorId w).1 in
  let w' := (addNewPost sharp base64 upload caption (Some image) authorId w).2 in
  r = failed "Post failed." e
  ∧ calls w' = calls w ++ [SharpToBuffer (buffer image)]
  ∧ posts w' = posts w ∧ comments w' = comments w ∧ users w' = users w
  ∧ next_id w' = next_id w.
Proof.
  intros Hsharp. unfold addNewPost, sharp_toBuffer. exec. by rewrite Hsharp.
Qed.

(** X4: when the storage rejects the upload, the request is answered 500
    with [success: false] and the storage's message as [error]; both external
    calls were made, in order, and no post was stored: posts, comments, users
    and the id generator are unchanged. *)
Theorem addNewPost_upload_rejects
  (sharp : Buffer → Outcome Buffer) (base64 : Buffer → string) (upload : string → Outcome string)
  (caption : option string) (image : File) (authorId : ObjectId) (w : World)
  (optimized : Buffer) (e : string) :
  sharp (buffer image) = Ok optimized →
  upload ("data:image/jpeg;base64," +:+ base64 optimized) = Throw e →
  let r := (addNewPost sharp base64 upload caption (Some image) authorId w).1 in
  let w' := (addNewPost sharp base64 upload caption (Some image) authorId w).2 in
  r = failed "Post failed." e
  ∧ calls w' = calls w ++ [SharpToBuffer (buffer image);
                           CloudinaryUpload ("data:image/jpeg;base64," +:+ base64 optimized)]
  ∧ posts w' = posts w ∧ comments w' = comments w ∧ users w' = users w
  ∧ next_id w' = next_id w.
Proof.
  intros Hsharp Hupload. unfold addNewPost, sharp_toBuffer, cloudinary_upload.
  exec. rewrite Hsharp. simpl. rewrite Hupload. simpl.
  split_and!; try done. by rewrite <-app_assoc.
Qed.

(** ** Requests about a post that does not exist *)

(** X5: like, dislike, delete and bookmark requests for a post id that no
    post has are all answered 404 with [message: 'Post not found'] and
    [success: false], and none of them changes anything. *)
Theorem post_not_found (w : World) (postId : IdText) (userId : ObjectId) :
  posts w !! cast postId = None →
  let not_found :=
    json 404 [("message", JString "Post not found"); ("success", JBool false)] in
  likePost (cast postId) userId w = (not_found, w)
  ∧ dislikePost (cast postId) userId w = (not_found, w)
  ∧ deletePost postId userId w = (not_found, w)
  ∧ bookmarkPost (cast postId) userId w = (not_found, w).
Proof.
  intros Hp. unfold likePost, dislikePost, deletePost, bookmarkPost. exec.
  by rewrite Hp.
Qed.

(** ** Comments *)

(** X6: an add-comment request whose text is missing or empty is answered
    400 with [message: 'Text is required'] and [success: false] before the
    post is even looked up: nothing is stored, whether the post exists or
    not. *)
Theorem addComment_text_required (w : World) (postId userId : ObjectId) (text : option string) :
  text = None ∨ text = Some "" →
  addComment postId userId text w =
    (json 400 [("message", JString "Text is required"); ("success", JBool false)], w).
Proof. by intros [-> | ->]. Qed.

(** X7: an add-comment request with non-empty text on an existing post is
    answered 201 with [success: true] and the new comment, its author
    populated. The comment is stored under the next generated id with the
    text, the requester, the post id and the current time, and that id is
    appended to the post's list of comments; other posts, all users and the
    external calls are untouched. *)
Theorem addComment_stores_comment
  (w : World) (postId userId : ObjectId) (text : option string) (t : string) (p : Post.t) :
  posts w !! postId = Some p →
  truthy text = Some t →
  let r := (addComment postId userId text w).1 in
  let w' := (addComment postId userId text w).2 in
  status r = 201%N
  ∧ field "success" (body r) = Some (JBool true)
  ∧ field "comment" (body r)
    = Some (JComment (mkCommentView (next_id w) t
                        (populate_user w UsernameProfilePicture userId) postId (now w)))
  ∧ comments w' = <[next_id w := Comment.mk t userId postId (now w)]> (comments w)
  ∧ posts w' !! postId = Some (with_comments (λ l, l ++ [next_id w]) p)
  ∧ (∀ id, id ≠ postId → posts w' !! id = posts w !! id)
  ∧ users w' = users w
  ∧ calls w' = calls w
  ∧ next_id w' = Pos.succ (next_id w).
Proof.
  intros Hp Ht. unfold addComment. rewrite Ht. exec. rewrite Hp. simpl.
  unfold Post_save. exec. split_and!; try done.
  - by rewrite lookup_alter_eq, Hp.
  - intros id Hne. by rewrite lookup_alter_ne.
Qed.

Lemma filter_nothing {A} (P : A → Prop) `{∀ x, Decision (P x)} (l : list A) :
  (∀ x, x ∈ l → ¬ P x) → filter P l = [].
Proof.
  induction l as [|x l IH]; [done|]. intros Hl.
  rewrite filter_cons_False by (apply Hl; left).
  apply IH. intros y Hy. apply Hl. by right.
Qed.

Lemma getCommentsOfPost_result w postId :
  getCommentsOfPost postId w =
    (json 200 [("success", JBool true);
               ("comments", JComments (comment_view w UsernameProfilePicture
                  <$> filter (λ d, Comment.post (fields d) = postId) (docs (comments w))))],
     w).
Proof. done. Qed.

(** X8: listing the comments of a post id never fails and never writes: the
    answer is 200 with [success: true], the world is unchanged, and the
    comments returned are exactly the stored comments whose post reference is
    that id, each with its author populated. In particular an id without
    comments, or without a post, gets an empty list, not a 404. *)
Theorem getCommentsOfPost_lists (w : World) (postId : ObjectId) :
  let r := (getCommentsOfPost postId w).1 in
  status r = 200%N
  ∧ field "success" (body r) = Some (JBool true)
  ∧ (getCommentsOfPost postId w).2 = w
  ∧ (∀ v, v ∈ comments_payload r ↔
          ∃ id c, comments w !! id = Some c ∧ Comment.post c = postId
                  ∧ v = comment_view w UsernameProfilePicture (mkDoc id c))
  ∧ ((∀ id c, comments w !! id = Some c → Comment.post c ≠ postId) →
       comments_payload r = []).
Proof.
  rewrite getCommentsOfPost_result. unfold comments_payload. simpl.
  assert (Hmem : ∀ v, v ∈ comment_view w UsernameProfilePicture
                        <$> filter (λ d, Comment.post (fields d) = postId) (docs (comments w))
                 ↔ ∃ id c, comments w !! id = Some c ∧ Comment.post c = postId
                           ∧ v = comment_view w UsernameProfilePicture (mkDoc id c)).
  { intros v. rewrite list_elem_of_fmap. split.
    - intros [d [-> [Hpost Hd%elem_of_docs]%list_elem_of_filter]].
      exists (_id d), (fields d). by destruct d.
    - intros (id & c & Hc & Hpost & ->). exists (mkDoc id c). split; [done|].
      apply list_elem_of_filter. split; [done|]. by apply elem_of_docs. }
  split_and!; try done.
  intros Hnone. rewrite filter_nothing; [done|].
  intros d Hd%elem_of_docs. by apply (Hnone (_id d) (fields d)).
Qed.

(** X9: once its author has deleted a post, listing the comments of that
    post id returns the empty list: the cascade leaves no comment behind. *)
Theorem deletePost_then_getCommentsOfPost
  (w : World) (postId : IdText) (p : Post.t) (u : User.t) :
  posts w !! cast postId = Some p →
  users w !! Post.author p = Some u →
  let w' := (deletePost postId (Post.author p) w).2 in
  status (getCommentsOfPost (cast postId) w').1 = 200%N
  ∧ comments_payload (getCommentsOfPost (cast postId) w').1 = [].
Proof.
  intros Hp Hu w'. split; [done|].
  assert (Hgone : ∀ id c, comments w' !! id = Some c → Comment.post c ≠ cast postId).
  { unfold w', deletePost. exec. rewrite Hp. simpl.
    case_decide; [done|]. simpl. rewrite Hu. simpl.
    intros id c [_ Hne]%map_lookup_filter_Some. exact Hne. }
  rewrite getCommentsOfPost_result. unfold comments_payload. simpl.
  rewrite filter_nothing; [done|].
  intros d Hd%elem_of_docs. by apply (Hgone (_id d) (fields d)).
Qed.

(** X10: every add-comment request with non-empty text puts its comment in
    the listing of the post id it names, whatever it is answered: with 201
    when the post exists, and with 500 when it does not. *)
Theorem addComment_then_getCommentsOfPost
  (w : World) (postId userId : ObjectId) (text : option string) (t : string) :
  truthy text = Some t →
  let r := (addComment postId userId text w).1 in
  let w' := (addComment postId userId text w).2 in
  (status r = 201%N ∨ status r = 500%N)
  ∧ comment_view w' UsernameProfilePicture
      (mkDoc (next_id w) (Comment.mk t userId postId (now w)))
    ∈ comments_payload (getCommentsOfPost postId w').1.
Proof.
  intros Ht r w'. split.
  { unfold r, addComment. rewrite Ht. exec.
    destruct (posts w !! postId); simpl; auto. }
  assert (Hc : comments w' !! next_id w = Some (Comment.mk t userId postId (now w))).
  { unfold w', addComment. rewrite Ht. exec.
    destruct (posts w !! postId); simpl; unfold Post_save; exec; apply lookup_insert_eq. }
  rewrite getCommentsOfPost_result. unfold comments_payload. simpl.
  apply list_elem_of_fmap. eexists. split; [done|].
  apply list_elem_of_filter. split; [done|]. by apply elem_of_docs.
Qed.

(** ** Likes, again *)

Lemma dislikePost_found w postId userId p :
  posts w !! postId = Some p →
  dislikePost postId userId w =
    (json 200 [("message", JString "Post disliked"); ("success", JBool true)],
     set_posts (alter (with_likes (pull userId)) postId) w).
Proof.
  intros Hp. unfold dislikePost. exec. rewrite Hp. simpl. by rewrite save_unmodified_post.
Qed.

Lemma elem_of_addToSet_iff x y l : y ∈ addToSet x l ↔ y = x ∨ y ∈ l.
Proof.
  unfold addToSet. case_decide as Hx.
  - split; [auto|]. by intros [->|?].
  - rewrite elem_of_app, list_elem_of_singleton. tauto.
Qed.

Lemma elem_of_pull_iff x y l : y ∈ pull x l ↔ y ≠ x ∧ y ∈ l.
Proof. unfold pull. by rewrite list_elem_of_filter. Qed.

(** X11: liking an existing post is answered 200 with [success: true];
    afterwards the likers of the post are the requester and the earlier
    likers, nobody else, and the earlier likes keep their place. Other posts,
    the comments, the users and the external calls are untouched. *)
Theorem likePost_adds_liker (w : World) (postId userId : ObjectId) (p : Post.t) :
  posts w !! postId = Some p →
  let r := (likePost postId userId w).1 in
  let w' := (likePost postId userId w).2 in
  status r = 200%N
  ∧ field "success" (body r) = Some (JBool true)
  ∧ (∃ p', posts w' !! postId = Some p'
           ∧ (∀ v, v ∈ Post.likes p' ↔ v = userId ∨ v ∈ Post.likes p)
           ∧ Post.likes p `prefix_of` Post.likes p'
           ∧ Post.comments p' = Post.comments p
           ∧ Post.author p' = Post.author p)
  ∧ (∀ id, id ≠ postId → posts w' !! id = posts w !! id)
  ∧ comments w' = comments w ∧ users w' = users w ∧ calls w' = calls w.
Proof.
  intros Hp r w'. unfold r, w'. rewrite (likePost_found _ _ _ _ Hp). simpl.
  split_and!; try done.
  - exists (with_likes (addToSet userId) p). rewrite lookup_alter_eq, Hp. simpl.
    split_and!; try done.
    + intros v. apply elem_of_addToSet_iff.
    + unfold addToSet. case_decide; [done|]. by apply prefix_app_r.
  - intros id Hne. by rewrite lookup_alter_ne.
Qed.

(** X12: disliking an existing post is answered 200 with [success: true]
    whether or not the requester had liked it; afterwards the requester is
    not among the likers, and every other liker still is. Other posts, the
    comments and the users are untouched. *)
Theorem dislikePost_removes_liker (w : World) (postId userId : ObjectId) (p : Post.t) :
  posts w !! postId = Some p →
  let r := (dislikePost postId userId w).1 in
  let w' := (dislikePost postId userId w).2 in
  status r = 200%N
  ∧ field "success" (body r) = Some (JBool true)
  ∧ (∃ p', posts w' !! postId = Some p'
           ∧ (userId ∉ Post.likes p')
           ∧ (∀ v, v ∈ Post.likes p' ↔ v ≠ userId ∧ v ∈ Post.likes p)
           ∧ Post.comments p' = Post.comments p
           ∧ Post.author p' = Post.author p)
  ∧ (∀ id, id ≠ postId → posts w' !! id = posts w !! id)
  ∧ comments w' = comments w ∧ users w' = users w ∧ calls w' = calls w.
Proof.
  intros Hp r w'. unfold r, w'. rewrite (dislikePost_found _ _ _ _ Hp). simpl.
  split_and!; try done.
  - exists (with_likes (pull userId) p). rewrite lookup_alter_eq, Hp. simpl.
    split_and!; try done.
    + apply not_elem_of_pull.
    + intros v. apply elem_of_pull_iff.
  - intros id Hne. by rewrite lookup_alter_ne.
Qed.

(** X13: a like followed by a dislike, by a user who had not liked the post,
    brings the world back to where it was. *)
Theorem likePost_then_dislikePost (w : World) (postId userId : ObjectId) (p : Post.t) :
  posts w !! postId = Some p →
  userId ∉ Post.likes p →
  (dislikePost postId userId (likePost postId userId w).2).2 = w.
Proof.
  intros Hp Hnot. rewrite (likePost_found _ _ _ _ Hp). simpl.
  erewrite dislikePost_found; [|simpl; by rewrite lookup_alter_eq, Hp]. simpl.
  unfold set_posts at 1. simpl. rewrite alter_alter_eq.
  apply set_posts_id, alter_id. intros q Hq. simplify_eq.
  change (with_likes (pull userId ∘ addToSet userId) p = p).
  apply with_likes_id. simpl. by apply pull_addToSet.
Qed.

(** ** Bookmarks, again *)

(** X14: a bookmark request for an existing post that is already among the
    requester's bookmarks is answered 200 with [type: 'unsaved']; afterwards
    the post id is not among the bookmarks, every other bookmark still is,
    and the requester's list of posts, the other users, the posts and the
    comments are untouched. *)
Theorem bookmarkPost_removes_bookmark
  (w : World) (postId userId : ObjectId) (p : Post.t) (u : User.t) :
  posts w !! postId = Some p →
  users w !! userId = Some u →
  postId ∈ User.bookmarks u →
  let r := (bookmarkPost postId userId w).1 in
  let w' := (bookmarkPost postId userId w).2 in
  status r = 200%N
  ∧ field "type" (body r) = Some (JString "unsaved")
  ∧ field "success" (body r) = Some (JBool true)
  ∧ (∃ u', users w' !! userId = Some u'
           ∧ (postId ∉ User.bookmarks u')
           ∧ (∀ b, b ∈ User.bookmarks u' ↔ b ≠ postId ∧ b ∈ User.bookmarks u)
           ∧ User.posts u' = User.posts u)
  ∧ (∀ id, id ≠ userId → users w' !! id = users w !! id)
  ∧ posts w' = posts w ∧ comments w' = comments w.
Proof.
  intros Hp Hu Hb r w'. unfold r, w'.
  rewrite (bookmarkPost_unsave _ _ _ _ _ Hp Hu Hb). simpl.
  split_and!; try done.
  - exists (with_bookmarks (pull postId) u). rewrite lookup_alter_eq, Hu. simpl.
    split_and!; try done.
    + apply not_elem_of_pull.
    + intros b. apply elem_of_pull_iff.
  - intros id Hne. by rewrite lookup_alter_ne.
Qed.

(** X15: a bookmark request for an existing post by a requester who has no
    user document is answered 500 with [success: false]: reading
    [user.bookmarks] throws. Nothing is changed. *)
Theorem bookmarkPost_without_user (w : World) (postId userId : ObjectId) (p : Post.t) :
  posts w !! postId = Some p →
  users w !! userId = None →
  bookmarkPost postId userId w =
    (failed "bookmarkPost failed." "Cannot read properties of null (reading 'bookmarks')", w).
Proof.
  intros Hp Hu. unfold bookmarkPost. exec. rewrite Hp. simpl. by rewrite Hu.
Qed.

(** X16: deleting a post does not clear it from anyone's bookmarks. A user
    other than the author who had bookmarked the post still has its id among
    the bookmarks after the author deleted it, and can no longer take it
    out: the bookmark request for that id is now answered 404 and changes
    nothing. *)
Theorem deletePost_leaves_bookmark
  (w : World) (postId : IdText) (reader : ObjectId) (p : Post.t) (u v : User.t) :
  posts w !! cast postId = Some p →
  users w !! Post.author p = Some u →
  users w !! reader = Some v →
  reader ≠ Post.author p →
  cast postId ∈ User.bookmarks v →
  let w' := (deletePost postId (Post.author p) w).2 in
  status (deletePost postId (Post.author p) w).1 = 200%N
  ∧ users w' !! reader = Some v
  ∧ bookmarkPost (cast postId) reader w' =
      (json 404 [("message", JString "Post not found"); ("success", JBool false)], w').
Proof.
  intros Hp Hu Hv Hne Hb w'.
  assert (Hw' : w' = set_comments (filter (λ kc, Comment.post kc.2 ≠ cast postId))
                  (set_users (alter (with_posts
                     (λ _, filter (λ id, toString id ≠ postId) (User.posts u)))
                     (Post.author p))
                     (set_posts (delete (cast postId)) w))).
  { unfold w', deletePost. exec. rewrite Hp. simpl.
    case_decide; [done|]. simpl. by rewrite Hu. }
  split_and!.
  - unfold deletePost. exec. rewrite Hp. simpl.
    case_decide; [done|]. simpl. by rewrite Hu.
  - rewrite Hw'. simpl. by rewrite lookup_alter_ne.
  - unfold bookmarkPost. exec.
    assert (posts w' !! cast postId = None) as ->; [|done].
    rewrite Hw'. simpl. apply lookup_delete_eq.
Qed.

(** ** The requester's own posts *)

Lemma getUserPost_result w authorId :
  getUserPost authorId w =
    (json 200
       [("posts", JPosts (post_view w UsernameProfilePicture (Some newest_comments_first)
                   <$> merge_sort (by_createdAt (λ d, Post.createdAt (fields d)) Descending)
                         (filter (λ d, Post.author (fields d) = authorId) (docs (posts w)))));
        ("success", JBool true)],
     w).
Proof. done. Qed.

(** X17: listing the requester's posts never fails and never writes: the
    answer is 200 with [success: true], the world is unchanged, the posts
    come newest first, and they are exactly the stored posts whose author is
    the requester. A requester without posts, or without a user document,
    gets the empty list. *)
Theorem getUserPost_lists (w : World) (authorId : ObjectId) :
  let r := (getUserPost authorId w).1 in
  status r = 200%N
  ∧ field "success" (body r) = Some (JBool true)
  ∧ (getUserPost authorId w).2 = w
  ∧ newest_first pv_createdAt (posts_of r)
  ∧ (∀ v, v ∈ posts_of r ↔
          ∃ id p, posts w !! id = Some p ∧ Post.author p = authorId
                  ∧ v = post_view w UsernameProfilePicture (Some newest_comments_first)
                          (mkDoc id p))
  ∧ ((∀ id p, posts w !! id = Some p → Post.author p ≠ authorId) → posts_of r = []).
Proof.
  rewrite getUserPost_result. unfold posts_of. simpl.
  assert (Hmem : ∀ d, d ∈ filter (λ d, Post.author (fields d) = authorId) (docs (posts w))
                 ↔ posts w !! _id d = Some (fields d) ∧ Post.author (fields d) = authorId).
  { intros d. rewrite list_elem_of_filter, elem_of_docs. tauto. }
  split_and!; try done.
  - unfold newest_first.
    eapply StronglySorted_fmap;
      [|apply (StronglySorted_merge_sort
                 (by_createdAt (λ d : Doc Post.t, Post.createdAt (fields d)) Descending))].
    intros x y Hxy. exact Hxy.
  - intros v. rewrite merge_sort_Permutation, list_elem_of_fmap. split.
    + intros [d [-> [Hd Ha]%Hmem]]. exists (_id d), (fields d). by destruct d.
    + intros (id & p & Hp & Ha & ->). exists (mkDoc id p). split; [done|]. by apply Hmem.
  - intros Hnone. apply Permutation_nil_r. rewrite merge_sort_Permutation.
    rewrite filter_nothing; [done|].
    intros d Hd%elem_of_docs. by apply (Hnone (_id d) (fields d)).
Qed.

(** ** Every handler at once *)

Section Requests.

Variable sharp : Buffer → Outcome Buffer.
Variable base64 : Buffer → string.
Variable upload : string → Outcome string.

(** Case analysis on everything a handler branches on. *)
Ltac branches :=
  repeat (simpl; match goal with
    | |- context [posts ?w !! ?k] => destruct (posts w !! k) eqn:?
    | |- context [users ?w !! ?k] => destruct (users w !! k) eqn:?
    | |- context [decide ?P] => destruct (decide P)
    | |- context [sharp ?b] => destruct (sharp b) eqn:?
    | |- context [upload ?b] => destruct (upload b) eqn:?
    | |- context [truthy ?t] => destruct (truthy t) eqn:?
    | |- context [match ?f with Some _ => _ | None => _ end] => is_var f; destruct f
    end).

(** X18: the status of every response is one of 200, 201, 400, 403, 404 and
    500, and a response says [success: true] exactly when its status is 200
    or 201. *)
Theorem success_iff_status (r : Request) (w : World) :
  let resp := (handle sharp base64 upload r w).1 in
  (status resp = 200%N ∨ status resp = 201%N ∨ status resp = 400%N
   ∨ status resp = 403%N ∨ status resp = 404%N ∨ status resp = 500%N)
  ∧ (field "success" (body resp) = Some (JBool true)
     ↔ status resp = 200%N ∨ status resp = 201%N).
Proof.
  destruct r; simpl; unfold_handlers; exec; branches;
    (split; [tauto|split; [intros ?; simplify_eq; tauto|intros [?|?]; simplify_eq; done]]).
Qed.

(** X19: a request that is turned down with 400, 403 or 404 has changed
    nothing: these answers are given before the first write. *)
Theorem rejected_request_writes_nothing (r : Request) (w : World) :
  status (handle sharp base64 upload r w).1 = 400%N
  ∨ status (handle sharp base64 upload r w).1 = 403%N
  ∨ status (handle sharp base64 upload r w).1 = 404%N →
  (handle sharp base64 upload r w).2 = w.
Proof.
  destruct r; simpl; unfold_handlers; exec; branches;
    intros [?|[?|?]]; simplify_eq; done.
Qed.

(** X20: the image pipeline and the storage are reached by add-post requests
    that carry a file and by nothing else: every other request leaves the
    log of external calls as it was. *)
Theorem only_uploads_call_out (r : Request) (w : World) :
  carries_image r = false →
  calls (handle sharp base64 upload r w).2 = calls w.
Proof.
  destruct r as [? [?|] ?| | | | | | | |]; simpl; [done|..]; intros _;
    unfold_handlers; exec; branches; done.
Qed.

(** ** More invariants of the reachable worlds *)

Lemma posts_fresh_succ m n : posts_fresh m n → posts_fresh m (Pos.succ n).
Proof. intros Hm i c Hi. specialize (Hm i c Hi). simpl in *. lia. Qed.

Lemma posts_fresh_insert p m n : posts_fresh m n → posts_fresh (<[n:=p]> m) (Pos.succ n).
Proof. intros Hm. apply map_Forall_insert_2; [lia|by apply posts_fresh_succ]. Qed.

Lemma posts_fresh_alter f k m n : posts_fresh m n → posts_fresh (alter f k m) n.
Proof.
  intros Hm i p. rewrite lookup_alter. case_decide; subst; [|apply Hm].
  destruct (m !! i) as [q|] eqn:Hq; simpl; [|done]. intros _. by apply (Hm i q).
Qed.

Lemma posts_fresh_delete k m n : posts_fresh m n → posts_fresh (delete k m) n.
Proof. apply map_Forall_delete. Qed.

Lemma linked_alter f k ps cs :
  (∀ p, Post.comments (f p) = Post.comments p) →
  linked ps cs → linked (alter f k ps) cs.
Proof.
  intros Hf Hl pid p cid. rewrite lookup_alter. case_decide; subst; [|apply Hl].
  destruct (ps !! pid) as [q|] eqn:Hq; simpl; [|done].
  intros [= <-]. rewrite Hf. by apply Hl.
Qed.

Lemma linked_delete k ps cs : linked ps cs → linked (delete k ps) cs.
Proof. intros Hl pid p cid [_ Hp]%lookup_delete_Some. by apply Hl. Qed.

Lemma linked_insert_post k caption image author likes createdAt ps cs :
  linked ps cs → linked (<[k := Post.mk caption image author [] likes createdAt]> ps) cs.
Proof.
  intros Hl pid p cid. rewrite lookup_insert. case_decide; subst; [|apply Hl].
  intros [= <-]. simpl. by intros ?%elem_of_nil.
Qed.

Lemma linked_insert_comment c ps cs n :
  threads_ok ps n → linked ps cs → linked ps (<[n := c]> cs).
Proof.
  intros Ht Hl pid p cid Hp Hcid. destruct (Hl pid p cid Hp Hcid) as (c' & Hc' & Hpost).
  exists c'. split; [|done]. rewrite lookup_insert_ne; [done|].
  destruct (Ht pid p Hp) as [_ Hb]. apply (proj1 (Forall_forall _ _) Hb) in Hcid. lia.
Qed.

Lemma linked_push text author k t ps cs n :
  threads_ok ps n → linked ps cs →
  linked (alter (λ p, with_comments (λ l, l ++ [n]) p) k ps)
         (<[n := Comment.mk text author k t]> cs).
Proof.
  intros Ht Hl pid p cid. rewrite lookup_alter. case_decide; subst.
  - destruct (ps !! pid) as [q|] eqn:Hq; simpl; [|done].
    intros [= <-]. simpl. intros [Hcid| ->%list_elem_of_singleton]%elem_of_app.
    + by apply (linked_insert_comment _ ps cs n Ht Hl pid q).
    + eexists. by rewrite lookup_insert_eq.
  - by apply linked_insert_comment.
Qed.

Lemma linked_cascade k ps cs :
  linked ps cs →
  linked (delete k ps) (filter (λ kc : positive * Comment.t, Comment.post kc.2 ≠ k) cs).
Proof.
  intros Hl pid p cid [Hne Hp]%lookup_delete_Some Hcid.
  destruct (Hl pid p cid Hp Hcid) as (c & Hc & Hpost).
  exists c. split; [|done]. apply map_lookup_filter_Some. split; [done|]. simpl. congruence.
Qed.

#[local] Hint Resolve posts_fresh_succ posts_fresh_insert posts_fresh_alter posts_fresh_delete
  linked_alter linked_delete linked_insert_post linked_insert_comment linked_push
  linked_cascade : inv.

Lemma Linked_initial : Linked initial.
Proof.
  split; [apply Inv_initial|apply map_Forall_empty|].
  intros pid p cid Hp. simpl in Hp. by rewrite lookup_empty in Hp.
Qed.

Lemma Linked_handle r w : Linked w → Linked (handle sharp base64 upload r w).2.
Proof.
  intros [Hinv Hf Hl]. split; [by apply Inv_handle| |];
    pose proof (inv_threads _ Hinv) as Ht; clear Hinv;
    destruct r; simpl; unfold_handlers; exec; branches; simpl; eauto 6 with inv.
Qed.

Lemma Linked_step e w : Linked w → Linked (step sharp base64 upload w e).
Proof.
  destruct e as [elapsed|us|r]; [| |apply Linked_handle].
  - intros [Hinv Hf Hl]. split; [by apply Inv_step|done|done].
  - intros [Hinv Hf Hl]. split; [|done|done].
    by apply (Inv_step sharp base64 upload (Accounts us)).
Qed.

Lemma Linked_reachable w : reachable sharp base64 upload w → Linked w.
Proof.
  intros [es <-]. unfold run. generalize Linked_initial. generalize initial.
  induction es as [|e es IH]; intros w0 H0; simpl; [done|].
  by apply IH, Linked_step.
Qed.

End Requests.

(** X21: in every world the server can reach, no post stores the same liker
    twice, so the length of a post's likes is its number of likers. *)
Theorem reachable_likes_distinct
  (sharp : Buffer → Outcome Buffer) (base64 : Buffer → string) (upload : string → Outcome string)
  (w : World) (postId : ObjectId) (p : Post.t) :
  reachable sharp base64 upload w →
  posts w !! postId = Some p →
  NoDup (Post.likes p)
  ∧ ∀ userId, (occurrences userId (Post.likes p) ≤ 1)%nat.
Proof.
  intros Hw%Inv_reachable%inv_likes Hp. specialize (Hw postId p Hp). simpl in Hw.
  split; [done|]. intros userId.
  destruct (decide (userId ∈ Post.likes p)) as [Hin|Hout].
  - by rewrite occurrences_NoDup.
  - rewrite occurrences_absent by done. lia.
Qed.

(** X22: in every world the server can reach, every comment id that a post
    stores is the id of a stored comment, and that comment refers back to
    the post. *)
Theorem reachable_comments_linked
  (sharp : Buffer → Outcome Buffer) (base64 : Buffer → string) (upload : string → Outcome string)
  (w : World) (postId commentId : ObjectId) (p : Post.t) :
  reachable sharp base64 upload w →
  posts w !! postId = Some p →
  commentId ∈ Post.comments p →
  ∃ c, comments w !! commentId = Some c ∧ Comment.post c = postId.
Proof.
  intros Hw%Linked_reachable%linked_threads Hp Hc. by apply (Hw postId p).
Qed.

(** X23: in every world the server can reach, the id generator is ahead of
    every stored post and comment: the id the next created document gets is
    free in both collections, so creating a post or a comment never
    overwrites one. *)
Theorem reachable_ids_fresh
  (sharp : Buffer → Outcome Buffer) (base64 : Buffer → string) (upload : string → Outcome string)
  (w : World) :
  reachable sharp base64 upload w →
  (∀ id, is_Some (posts w !! id) ∨ is_Some (comments w !! id) → (id < next_id w)%positive)
  ∧ posts w !! next_id w = None
  ∧ comments w !! next_id w = None.
Proof.
  intros Hw%Linked_reachable.
  pose proof (linked_posts_fresh _ Hw) as Hp.
  pose proof (inv_fresh _ (linked_inv _ Hw)) as Hc.
  split_and!.
  - intros id [[p Hid]|[c Hid]]; [by apply (Hp id p)|by apply (Hc id c)].
  - destruct (posts w !! next_id w) as [p|] eqn:Hn; [|done].
    specialize (Hp _ p Hn). simpl in Hp. lia.
  - by apply fresh_ok_next.
Qed.

Lemma populate_comments_all w s ids pid :
  (∀ cid, cid ∈ ids → ∃ c, comments w !! cid = Some c ∧ Comment.post c = pid) →
  cv_id <$> populate_comments w (mkPopulateComments s None UsernameProfilePicture) ids = ids
  ∧ Forall (λ c, cv_post c = pid)
      (populate_comments w (mkPopulateComments s None UsernameProfilePicture) ids).
Proof.
  unfold populate_comments, sort_by. cbn [pc_options_sort pc_populate_author].
  induction ids as [|cid cids IH]; intros Hall; [by split; [|constructor]|].
  destruct (Hall cid) as (c & Hc & Hpost); [left|].
  destruct IH as [IHids IHposts]; [intros cid' Hin; apply Hall; by right|].
  cbn [omap list_omap]. rewrite Hc. cbn [fmap option_fmap option_map].
  rewrite !fmap_cons. split.
  - cbn [cv_id comment_view _id]. f_equal. exact IHids.
  - constructor; [exact Hpost|exact IHposts].
Qed.

(** X24: in every world the server can reach, the listing of all posts
    shows, under each post, all the comments the post stores, in the order
    it stores them, and each of them refers to that post. *)
Theorem getAllPost_lists_every_comment
  (sharp : Buffer → Outcome Buffer) (base64 : Buffer → string) (upload : string → Outcome string)
  (w : World) :
  reachable sharp base64 upload w →
  Forall (λ v, ∃ p, posts w !! pv_id v = Some p
                ∧ cv_id <$> comments_of v = Post.comments p
                ∧ Forall (λ c, cv_post c = pv_id v) (comments_of v))
         (posts_of (getAllPost w).1).
Proof.
  intros Hw%Linked_reachable%linked_threads.
  rewrite getAllPost_result. unfold posts_of. simpl.
  apply Forall_fmap, Forall_forall. intros d Hd. simpl.
  rewrite merge_sort_Permutation, filter_everything in Hd.
  apply elem_of_docs in Hd. exists (fields d). split; [done|].
  unfold comments_of. simpl. apply populate_comments_all.
  intros cid Hcid. by apply (Hw (_id d) (fields d)).
Qed.

(** ** The further properties at work on the concrete histories *)

(** Ann posts a second image. *)
Lemma addNewPost_stores_post_witness :
  status (addNewPost sharp_ok base64_plain upload_ok (Some "dawn") (Some (mkFile "raw")) 7
            two_comments).1 = 201%N
  ∧ posts (addNewPost sharp_ok base64_plain upload_ok (Some "dawn") (Some (mkFile "raw")) 7
             two_comments).2 !! 4%positive
    = Some (Post.mk (Some "dawn") "https://res.cloudinary.com/data:image/jpeg;base64,raw"
              7 [] [] 2).
Proof.
  destruct (addNewPost_stores_post sharp_ok base64_plain upload_ok (Some "dawn")
              (mkFile "raw") 7 two_comments "raw"
              "https://res.cloudinary.com/data:image/jpeg;base64,raw")
    as (Hstatus & _ & Hposts & _).
  - reflexivity.
  - reflexivity.
  - discriminate.
  - split; [exact Hstatus|]. rewrite Hposts. vm_compute. reflexivity.
Defined.

Lemma addNewPost_response_witness :
  field "post" (body (addNewPost sharp_ok base64_plain upload_ok (Some "dawn")
                        (Some (mkFile "raw")) 7 two_comments).1)
  = Some (JPost (mkPostView 4 (Some "dawn")
                   "https://res.cloudinary.com/data:image/jpeg;base64,raw"
                   (Some (mkUserView 7 "ann" "ann.png" (Some [1; 4]%positive) (Some [])))
                   (inl []) [] 2)).
Proof.
  destruct (addNewPost_response sharp_ok base64_plain upload_ok (Some "dawn")
              (mkFile "raw") 7 two_comments "raw"
              "https://res.cloudinary.com/data:image/jpeg;base64,raw")
    as (Hpost & _).
  - reflexivity.
  - reflexivity.
  - discriminate.
  - rewrite Hpost. vm_compute. reflexivity.
Defined.

Lemma addNewPost_sharp_rejects_witness :
  posts (addNewPost sharp_rejects base64_plain upload_ok None (Some (mkFile "raw")) 7
           two_comments).2 = posts two_comments
  ∧ calls (addNewPost sharp_rejects base64_plain upload_ok None (Some (mkFile "raw")) 7
             two_comments).2 = calls two_comments ++ [SharpToBuffer "raw"].
Proof.
  destruct (addNewPost_sharp_rejects sharp_rejects base64_plain upload_ok None
              (mkFile "raw") 7 two_comments
              "Input buffer contains unsupported image format")
    as (_ & Hcalls & Hposts & _).
  - reflexivity.
  - split; [exact Hposts|exact Hcalls].
Defined.

Lemma addNewPost_upload_rejects_witness :
  (addNewPost sharp_ok base64_plain upload_rejects None (Some (mkFile "raw")) 7
     two_comments).1 = failed "Post failed." "Invalid image file"
  ∧ posts (addNewPost sharp_ok base64_plain upload_rejects None (Some (mkFile "raw")) 7
             two_comments).2 = posts two_comments.
Proof.
  destruct (addNewPost_upload_rejects sharp_ok base64_plain upload_rejects None
              (mkFile "raw") 7 two_comments "raw" "Invalid image file")
    as (Hr & _ & Hposts & _).
  - reflexivity.
  - reflexivity.
  - split; [exact Hr|exact Hposts].
Defined.

(** Post 9 does not exist. *)
Lemma post_not_found_witness :
  likePost 9 7 two_comments
  = (json 404 [("message", JString "Post not found"); ("success", JBool false)], two_comments).
Proof.
  destruct (post_not_found two_comments (toString 9) 7) as (Hlike & _).
  - vm_compute. reflexivity.
  - exact Hlike.
Defined.

Lemma addComment_text_required_witness :
  addComment 1 7 (Some "") two_comments
  = (json 400 [("message", JString "Text is required"); ("success", JBool false)], two_comments).
Proof.
  apply (addComment_text_required two_comments 1 7 (Some "")).
  right. reflexivity.
Defined.

(** Ann comments a third time. *)
Lemma addComment_stores_comment_witness :
  status (addComment 1 7 (Some "third") two_comments).1 = 201%N
  ∧ posts (addComment 1 7 (Some "third") two_comments).2 !! 1%positive
    = Some (with_comments (λ l, l ++ [4%positive]) sunset).
Proof.
  destruct (addComment_stores_comment two_comments 1 7 (Some "third") "third" sunset)
    as (Hstatus & _ & _ & _ & Hpost & _).
  - vm_compute. reflexivity.
  - reflexivity.
  - split; [exact Hstatus|exact Hpost].
Defined.

Lemma deletePost_then_getCommentsOfPost_witness :
  comments_payload (getCommentsOfPost 1 (deletePost (toString 1) 7 two_comments).2).1 = [].
Proof.
  destruct (deletePost_then_getCommentsOfPost two_comments (toString 1) sunset ann_with_post)
    as (_ & Hempty).
  - vm_compute. reflexivity.
  - vm_compute. reflexivity.
  - exact Hempty.
Defined.

Lemma addComment_then_getCommentsOfPost_witness :
  comment_view (addComment 9 7 (Some "hello") two_comments).2 UsernameProfilePicture
    (mkDoc 4%positive (Comment.mk "hello" 7 9 2))
  ∈ comments_payload
      (getCommentsOfPost 9 (addComment 9 7 (Some "hello") two_comments).2).1.
Proof.
  destruct (addComment_then_getCommentsOfPost two_comments 9 7 (Some "hello") "hello")
    as (_ & Hlisted).
  - reflexivity.
  - exact Hlisted.
Defined.

(** Bob likes Ann's post. *)
Lemma likePost_adds_liker_witness :
  status (likePost 1 8 two_comments).1 = 200%N
  ∧ ∃ p', posts (likePost 1 8 two_comments).2 !! 1%positive = Some p'
          ∧ ∀ v, v ∈ Post.likes p' ↔ v = 8%positive ∨ v ∈ Post.likes sunset.
Proof.
  destruct (likePost_adds_liker two_comments 1 8 sunset)
    as (Hstatus & _ & (p' & Hp' & Hlikes & _) & _).
  - vm_compute. reflexivity.
  - split; [exact Hstatus|]. exists p'. split; [exact Hp'|exact Hlikes].
Defined.

(** Bob takes his like back. *)
Lemma dislikePost_removes_liker_witness :
  status (dislikePost 1 8 with_bob).1 = 200%N
  ∧ ∃ p', posts (dislikePost 1 8 with_bob).2 !! 1%positive = Some p'
          ∧ 8%positive ∉ Post.likes p'.
Proof.
  destruct (dislikePost_removes_liker with_bob 1 8 sunset_liked)
    as (Hstatus & _ & (p' & Hp' & Hout & _) & _).
  - vm_compute. reflexivity.
  - split; [exact Hstatus|]. exists p'. split; [exact Hp'|exact Hout].
Defined.

Lemma likePost_then_dislikePost_witness :
  (dislikePost 1 8 (likePost 1 8 two_comments).2).2 = two_comments.
Proof.
  apply (likePost_then_dislikePost two_comments 1 8 sunset).
  - vm_compute. reflexivity.
  - simpl. apply not_elem_of_nil.
Defined.

(** Bob takes his bookmark back. *)
Lemma bookmarkPost_removes_bookmark_witness :
  field "type" (body (bookmarkPost 1 8 with_bob).1) = Some (JString "unsaved")
  ∧ ∃ u', users (bookmarkPost 1 8 with_bob).2 !! 8%positive = Some u'
          ∧ 1%positive ∉ User.bookmarks u'.
Proof.
  destruct (bookmarkPost_removes_bookmark with_bob 1 8 sunset_liked bob)
    as (_ & Htype & _ & (u' & Hu' & Hout & _) & _).
  - vm_compute. reflexivity.
  - vm_compute. reflexivity.
  - simpl. left.
  - split; [exact Htype|]. exists u'. split; [exact Hu'|exact Hout].
Defined.

(** In [two_comments] nobody has registered as user 8. *)
Lemma bookmarkPost_without_user_witness :
  bookmarkPost 1 8 two_comments
  = (failed "bookmarkPost failed." "Cannot read properties of null (reading 'bookmarks')",
     two_comments).
Proof.
  apply (bookmarkPost_without_user two_comments 1 8 sunset).
  - vm_compute. reflexivity.
  - vm_compute. reflexivity.
Defined.

(** Ann deletes the post Bob has bookmarked. *)
Lemma deletePost_leaves_bookmark_witness :
  users (deletePost (toString 1) (Post.author sunset_liked) with_bob).2 !! 8%positive
  = Some bob
  ∧ status (bookmarkPost (cast (toString 1)) 8
              (deletePost (toString 1) (Post.author sunset_liked) with_bob).2).1 = 404%N.
Proof.
  destruct (deletePost_leaves_bookmark with_bob (toString 1) 8 sunset_liked ann_with_post bob)
    as (_ & Hbob & Hnot_found).
  - vm_compute. reflexivity.
  - vm_compute. reflexivity.
  - vm_compute. reflexivity.
  - simpl. lia.
  - simpl. left.
  - split; [exact Hbob|]. by rewrite Hnot_found.
Defined.

Lemma rejected_request_writes_nothing_witness :
  (handle sharp_ok base64_plain upload_ok (DeletePost (toString 1) 8) two_comments).2 = two_comments.
Proof.
  apply (rejected_request_writes_nothing sharp_ok base64_plain upload_ok
           (DeletePost (toString 1) 8) two_comments).
  right. left. vm_compute. reflexivity.
Defined.

Lemma only_uploads_call_out_witness :
  calls (handle sharp_ok base64_plain upload_ok (AddComment 1 7 (Some "third")) two_comments).2
  = calls two_comments.
Proof.
  apply (only_uploads_call_out sharp_ok base64_plain upload_ok
           (AddComment 1 7 (Some "third")) two_comments).
  reflexivity.
Defined.

Lemma reachable_likes_distinct_witness : NoDup (Post.likes sunset_liked).
Proof.
  destruct (reachable_likes_distinct sharp_ok base64_plain upload_ok with_bob 1 sunset_liked)
    as (Hdistinct & _).
  - exists history_with_bob. vm_compute. reflexivity.
  - vm_compute. reflexivity.
  - exact Hdistinct.
Defined.

Lemma reachable_comments_linked_witness :
  ∃ c, comments two_comments !! 3%positive = Some c ∧ Comment.post c = 1%positive.
Proof.
  apply (reachable_comments_linked sharp_ok base64_plain upload_ok two_comments 1 3 sunset).
  - exists history. vm_compute. reflexivity.
  - vm_compute. reflexivity.
  - simpl. right. left.
Defined.

Lemma reachable_ids_fresh_witness :
  posts two_comments !! next_id two_comments = None
  ∧ comments two_comments !! next_id two_comments = None.
Proof.
  destruct (reachable_ids_fresh sharp_ok base64_plain upload_ok two_comments)
    as (_ & Hposts & Hcomments).
  - exists history. vm_compute. reflexivity.
  - split; [exact Hposts|exact Hcomments].
Defined.

Lemma getAllPost_lists_every_comment_witness :
  Forall (λ v, ∃ p, posts two_comments !! pv_id v = Some p
                ∧ cv_id <$> comments_of v = Post.comments p
                ∧ Forall (λ c, cv_post c = pv_id v) (comments_of v))
         (posts_of (getAllPost two_comments).1).
Proof.
  apply (getAllPost_lists_every_comment sharp_ok base64_plain upload_ok two_comments).
  exists history. vm_compute. reflexivity.
Defined.

Lemma getAllPost_lists_comments_oldest_first_witness :
  Forall (λ v, oldest_first cv_createdAt (comments_of v))
         (posts_of (getAllPost two_comments).1).
Proof.
  apply (getAllPost_lists_comments_oldest_first sharp_ok base64_plain upload_ok two_comments).
  exists history. vm_compute. reflexivity.
Defined.

(** The author of [untitled] has no user document. *)
Lemma deletePost_author_without_document_witness :
  deletePost (toString 1) (Post.author untitled) unregistered_author =
    (failed "deletePost failed." "Cannot read properties of null (reading 'posts')",
     set_posts (delete (cast (toString 1))) unregistered_author).
Proof.
  apply (deletePost_author_without_document unregistered_author (toString 1) untitled).
  - vm_compute. reflexivity.
  - vm_compute. reflexivity.
Defined.

(** Ann deletes her post through its upper-case spelling: the post goes, its
    id stays in her list. *)
Lemma deletePost_by_author_keeps_id_witness :
  status (deletePost (mkIdText 1 Variant) (Post.author sunset) two_comments).1 = 200%N
  ∧ posts (deletePost (mkIdText 1 Variant) (Post.author sunset) two_comments).2
      !! cast (mkIdText 1 Variant) = None
  ∧ ∃ u', users (deletePost (mkIdText 1 Variant) (Post.author sunset) two_comments).2
            !! Post.author sunset = Some u'
          ∧ cast (mkIdText 1 Variant) ∈ User.posts u'.
Proof.
  destruct (deletePost_by_author_keeps_id two_comments (mkIdText 1 Variant)
              sunset ann_with_post)
    as (Hstatus & _ & Hgone & _ & _ & Hkept).
  - reflexivity.
  - vm_compute. reflexivity.
  - vm_compute. reflexivity.
  - simpl. left.
  - split_and!; [exact Hstatus|exact Hgone|exact Hkept].
Defined.
